(** * A shallow embedding of the xconn-rust WAMP client session

    This file models the session core of [src/async_/session.rs] and
    [src/sync/session.rs] (the dispatcher [process_incoming_message],
    the public operations and the reader loop) and the RawSocket peer's
    [read] of [src/async_/rawsocket.rs].

    Modelling conventions:
    - an [i64] id is a [Z]; a [HashMap<i64, _>] is a [gmap Z _];
    - a [HashMap<String, Value>] is a [gmap string Value];
    - an mpsc [Sender] is a channel name ([nat]); every channel has a
      buffer of queued replies in the session-wide store [chans];
    - a peer write appends the frame (as a typed message: encoding is the
      serializer's job, outside this repository) to [wire];
    - a detached task / thread spawned by the reader is queued in [tasks]
      and run by a separate scheduler step. *)

From Stdlib Require Import ZArith List String Bool Lia.
From stdpp Require Import base gmap strings list fin_maps.

#[local] Set Warnings "-register-all".
Open Scope Z_scope.

(** ** Wire values and WAMP messages *)

Inductive Value : Type :=
| VNull
| VBool (b : bool)
| VInt (z : Z)
| VStr (s : string)
| VBytes (bs : list Byte.byte)
| VList (l : list Value)
| VDict (d : list (string * Value)).

(** [HashMap<String, Value>] *)
Abbreviation Dict := (gmap string Value).

(** Numeric type codes (wampproto's [MESSAGE_TYPE_*] constants). *)
Definition MESSAGE_TYPE_GOODBYE : Z := 6.
Definition MESSAGE_TYPE_ERROR : Z := 8.
Definition MESSAGE_TYPE_PUBLISH : Z := 16.
Definition MESSAGE_TYPE_PUBLISHED : Z := 17.
Definition MESSAGE_TYPE_SUBSCRIBE : Z := 32.
Definition MESSAGE_TYPE_SUBSCRIBED : Z := 33.
Definition MESSAGE_TYPE_UNSUBSCRIBE : Z := 34.
Definition MESSAGE_TYPE_UNSUBSCRIBED : Z := 35.
Definition MESSAGE_TYPE_EVENT : Z := 36.
Definition MESSAGE_TYPE_CALL : Z := 48.
Definition MESSAGE_TYPE_RESULT : Z := 50.
Definition MESSAGE_TYPE_REGISTER : Z := 64.
Definition MESSAGE_TYPE_REGISTERED : Z := 65.
Definition MESSAGE_TYPE_UNREGISTER : Z := 66.
Definition MESSAGE_TYPE_UNREGISTERED : Z := 67.
Definition MESSAGE_TYPE_INVOCATION : Z := 68.
Definition MESSAGE_TYPE_YIELD : Z := 70.

(** The decoded messages ([Box<dyn Message>] after [proto.receive]); the
    dispatcher's [downcast_ref::<T>().unwrap()] always succeeds because
    the message type code and the struct agree, so the embedding matches
    on the constructor. *)
Inductive Message : Type :=
| Goodbye (details : Dict) (reason : string)
| ErrorMsg (message_type request_id : Z) (details : Dict) (uri : string)
    (args : option (list Value)) (kwargs : option Dict)
| Publish (request_id : Z) (options : Dict) (topic : string)
    (args : option (list Value)) (kwargs : option Dict)
| Published (request_id publication_id : Z)
| Subscribe (request_id : Z) (options : Dict) (topic : string)
| Subscribed (request_id subscription_id : Z)
| Unsubscribe (request_id subscription_id : Z)
| Unsubscribed (request_id : Z)
| Event (subscription_id publication_id : Z) (details : Dict)
    (args : option (list Value)) (kwargs : option Dict)
| Call (request_id : Z) (options : Dict) (procedure : string)
    (args : option (list Value)) (kwargs : option Dict)
| Result_ (request_id : Z) (details : Dict)
    (args : option (list Value)) (kwargs : option Dict)
| Register (request_id : Z) (options : Dict) (procedure : string)
| Registered (request_id registration_id : Z)
| Unregister (request_id registration_id : Z)
| Unregistered (request_id : Z)
| Invocation (request_id registration_id : Z) (details : Dict)
    (args : option (list Value)) (kwargs : option Dict)
| Yield (request_id : Z) (options : Dict)
    (args : option (list Value)) (kwargs : option Dict)
| OtherMessage (code : Z).

Definition message_type (m : Message) : Z :=
  match m with
  | Goodbye _ _ => MESSAGE_TYPE_GOODBYE
  | ErrorMsg _ _ _ _ _ _ => MESSAGE_TYPE_ERROR
  | Publish _ _ _ _ _ => MESSAGE_TYPE_PUBLISH
  | Published _ _ => MESSAGE_TYPE_PUBLISHED
  | Subscribe _ _ _ => MESSAGE_TYPE_SUBSCRIBE
  | Subscribed _ _ => MESSAGE_TYPE_SUBSCRIBED
  | Unsubscribe _ _ => MESSAGE_TYPE_UNSUBSCRIBE
  | Unsubscribed _ => MESSAGE_TYPE_UNSUBSCRIBED
  | Event _ _ _ _ _ => MESSAGE_TYPE_EVENT
  | Call _ _ _ _ _ => MESSAGE_TYPE_CALL
  | Result_ _ _ _ _ => MESSAGE_TYPE_RESULT
  | Register _ _ _ => MESSAGE_TYPE_REGISTER
  | Registered _ _ => MESSAGE_TYPE_REGISTERED
  | Unregister _ _ => MESSAGE_TYPE_UNREGISTER
  | Unregistered _ => MESSAGE_TYPE_UNREGISTERED
  | Invocation _ _ _ _ _ => MESSAGE_TYPE_INVOCATION
  | Yield _ _ _ _ => MESSAGE_TYPE_YIELD
  | OtherMessage c => c
  end.

(** ** Request and response types ([src/types.rs]) *)

Record WampError := mkWampError {
  werr_uri : string;
  werr_args : option (list Value);
  werr_kwargs : option Dict }.

Record CallResponse := mkCallResponse {
  cr_args : option (list Value);
  cr_kwargs : option Dict;
  cr_error : option WampError }.

Record RegisterResponse := mkRegisterResponse {
  registration_id : Z;
  rr_error : option WampError }.

Record SubscribeResponse := mkSubscribeResponse {
  subscription_id : Z;
  sr_error : option WampError }.

Record PublishResponse := mkPublishResponse { pr_error : option WampError }.

Record InvocationArg := mkInvocationArg {
  inv_args : option (list Value);
  inv_kwargs : option Dict;
  inv_details : option Dict }.

Record EventArg := mkEventArg {
  ev_args : option (list Value);
  ev_kwargs : option Dict;
  ev_details : option Dict }.

Record YieldArg := mkYieldArg {
  y_args : option (list Value);
  y_kwargs : option Dict }.

(** A user callback either returns or panics ([fn(Invocation) -> Yield]
    has no other way to fail). *)
Inductive Outcome (A : Type) : Type :=
| Returns (a : A)
| Panics.
Arguments Returns {A} a.
Arguments Panics {A}.

(** [RegisterFn = fn(Invocation) -> Yield], [EventFn = fn(Event)]. *)
Definition RegisterFn := InvocationArg -> Outcome YieldArg.
Definition EventFn := EventArg -> Outcome unit.

Record CallRequest := mkCallRequest {
  call_procedure : string;
  call_options : Dict;
  call_args : list Value;
  call_kwargs : Dict }.

Record PublishRequest := mkPublishRequest {
  pub_topic : string;
  pub_options : Dict;
  pub_args : list Value;
  pub_kwargs : Dict }.

Record RegisterRequest := mkRegisterRequest {
  reg_procedure : string;
  reg_options : Dict;
  reg_callback : RegisterFn }.

Record SubscribeRequest := mkSubscribeRequest {
  sub_topic : string;
  sub_options : Dict;
  sub_callback : EventFn }.

(** ** Session state ([struct State]) *)

(** An [mpsc::Sender] is named by its channel. *)
Abbreviation Sender := nat.

Record State := mkState {
  call_requests : gmap Z Sender;
  register_requests : gmap Z Sender;
  unregister_requests : gmap Z Sender;
  registrations : gmap Z RegisterFn;
  publish_requests : gmap Z Sender;
  subscribe_requests : gmap Z Sender;
  unsubscribe_requests : gmap Z Sender;
  subscriptions : gmap Z EventFn;
  goodbye_sent : bool }.

(** [State::default()] *)
Definition state_default : State :=
  mkState ∅ ∅ ∅ ∅ ∅ ∅ ∅ ∅ false.

Definition set_call_requests (m : gmap Z Sender) (s : State) : State :=
  mkState m (register_requests s) (unregister_requests s) (registrations s)
    (publish_requests s) (subscribe_requests s) (unsubscribe_requests s)
    (subscriptions s) (goodbye_sent s).
Definition set_register_requests (m : gmap Z Sender) (s : State) : State :=
  mkState (call_requests s) m (unregister_requests s) (registrations s)
    (publish_requests s) (subscribe_requests s) (unsubscribe_requests s)
    (subscriptions s) (goodbye_sent s).
Definition set_unregister_requests (m : gmap Z Sender) (s : State) : State :=
  mkState (call_requests s) (register_requests s) m (registrations s)
    (publish_requests s) (subscribe_requests s) (unsubscribe_requests s)
    (subscriptions s) (goodbye_sent s).
Definition set_registrations (m : gmap Z RegisterFn) (s : State) : State :=
  mkState (call_requests s) (register_requests s) (unregister_requests s) m
    (publish_requests s) (subscribe_requests s) (unsubscribe_requests s)
    (subscriptions s) (goodbye_sent s).
Definition set_publish_requests (m : gmap Z Sender) (s : State) : State :=
  mkState (call_requests s) (register_requests s) (unregister_requests s)
    (registrations s) m (subscribe_requests s) (unsubscribe_requests s)
    (subscriptions s) (goodbye_sent s).
Definition set_subscribe_requests (m : gmap Z Sender) (s : State) : State :=
  mkState (call_requests s) (register_requests s) (unregister_requests s)
    (registrations s) (publish_requests s) m (unsubscribe_requests s)
    (subscriptions s) (goodbye_sent s).
Definition set_unsubscribe_requests (m : gmap Z Sender) (s : State) : State :=
  mkState (call_requests s) (register_requests s) (unregister_requests s)
    (registrations s) (publish_requests s) (subscribe_requests s) m
    (subscriptions s) (goodbye_sent s).
Definition set_subscriptions (m : gmap Z EventFn) (s : State) : State :=
  mkState (call_requests s) (register_requests s) (unregister_requests s)
    (registrations s) (publish_requests s) (subscribe_requests s)
    (unsubscribe_requests s) m (goodbye_sent s).
Definition set_goodbye_sent (b : bool) (s : State) : State :=
  mkState (call_requests s) (register_requests s) (unregister_requests s)
    (registrations s) (publish_requests s) (subscribe_requests s)
    (unsubscribe_requests s) (subscriptions s) b.

(** ** The dispatcher ([Session::process_incoming_message]) *)

(** A value sent on one of the reply channels. *)
Inductive Reply : Type :=
| RCall (r : CallResponse)
| RRegister (r : RegisterResponse)
| RUnregister (e : option WampError)
| RPublish (r : PublishResponse)
| RSubscribe (r : SubscribeResponse)
| RUnsubscribe (e : option WampError).

(** What the dispatcher does besides updating [State]: send on a reply
    channel, spawn a detached handler task, or signal the goodbye / exit
    channels. *)
Inductive Effect : Type :=
| Deliver (c : Sender) (r : Reply)
| SpawnInvocation (request_id : Z) (callback : RegisterFn) (inv : InvocationArg)
| SpawnEvent (callback : EventFn) (ev : EventArg)
| SignalGoodbye
| SignalExit.

Definition process_incoming_message (msg : Message) (s : State)
    : State * list Effect :=
  match msg with
  | Registered rid regid =>
      match register_requests s !! rid with
      | Some callback =>
          (set_register_requests (delete rid (register_requests s)) s,
           [Deliver callback (RRegister (mkRegisterResponse regid None))])
      | None => (s, [])
      end
  | Unregistered rid =>
      match unregister_requests s !! rid with
      | Some callback =>
          (set_unregister_requests (delete rid (unregister_requests s)) s,
           [Deliver callback (RUnregister None)])
      | None => (s, [])
      end
  | Result_ rid _ args kwargs =>
      match call_requests s !! rid with
      | Some callback =>
          (set_call_requests (delete rid (call_requests s)) s,
           [Deliver callback (RCall (mkCallResponse args kwargs None))])
      | None => (s, [])
      end
  | Invocation rid regid details args kwargs =>
      match registrations s !! regid with
      | None => (s, [])
      | Some callback =>
          (s, [SpawnInvocation rid callback
                 (mkInvocationArg args kwargs (Some details))])
      end
  | Subscribed rid subid =>
      match subscribe_requests s !! rid with
      | Some callback =>
          (set_subscribe_requests (delete rid (subscribe_requests s)) s,
           [Deliver callback (RSubscribe (mkSubscribeResponse subid None))])
      | None => (s, [])
      end
  | Unsubscribed rid =>
      match unsubscribe_requests s !! rid with
      | Some callback =>
          (set_unsubscribe_requests (delete rid (unsubscribe_requests s)) s,
           [Deliver callback (RUnsubscribe None)])
      | None => (s, [])
      end
  | Published rid _ =>
      match publish_requests s !! rid with
      | Some callback =>
          (set_publish_requests (delete rid (publish_requests s)) s,
           [Deliver callback (RPublish (mkPublishResponse None))])
      | None => (s, [])
      end
  | Event subid _ details args kwargs =>
      match subscriptions s !! subid with
      | Some callback =>
          (s, [SpawnEvent callback (mkEventArg args kwargs (Some details))])
      | None => (s, [])
      end
  | ErrorMsg ty rid _ uri args kwargs =>
      let err := mkWampError uri args kwargs in
      if Z.eqb ty MESSAGE_TYPE_CALL then
        match call_requests s !! rid with
        | Some response =>
            (set_call_requests (delete rid (call_requests s)) s,
             [Deliver response (RCall (mkCallResponse None None (Some err)))])
        | None => (s, [])
        end
      else if Z.eqb ty MESSAGE_TYPE_REGISTER then
        match register_requests s !! rid with
        | Some response =>
            (set_register_requests (delete rid (register_requests s)) s,
             [Deliver response (RRegister (mkRegisterResponse 0 (Some err)))])
        | None => (s, [])
        end
      else if Z.eqb ty MESSAGE_TYPE_UNREGISTER then
        match unregister_requests s !! rid with
        | Some response =>
            (set_unregister_requests (delete rid (unregister_requests s)) s,
             [Deliver response (RUnregister (Some err))])
        | None => (s, [])
        end
      else if Z.eqb ty MESSAGE_TYPE_SUBSCRIBE then
        match subscribe_requests s !! rid with
        | Some response =>
            (set_subscribe_requests (delete rid (subscribe_requests s)) s,
             [Deliver response (RSubscribe (mkSubscribeResponse 0 (Some err)))])
        | None => (s, [])
        end
      else if Z.eqb ty MESSAGE_TYPE_UNSUBSCRIBE then
        match unsubscribe_requests s !! rid with
        | Some response =>
            (set_unsubscribe_requests (delete rid (unsubscribe_requests s)) s,
             [Deliver response (RUnsubscribe (Some err))])
        | None => (s, [])
        end
      else if Z.eqb ty MESSAGE_TYPE_PUBLISH then
        match publish_requests s !! rid with
        | Some response =>
            (set_publish_requests (delete rid (publish_requests s)) s,
             [Deliver response (RPublish (mkPublishResponse (Some err)))])
        | None => (s, [])
        end
      else (s, [])
  | Goodbye _ _ =>
      (s, (if goodbye_sent s then [SignalGoodbye] else []) ++ [SignalExit])
  | _ => (s, [])
  end.

(** ** The session and its environment *)

(** Flavour of the session: [src/sync/session.rs] (threads, std mpsc) or
    [src/async_/session.rs] (tokio tasks, bounded mpsc channels). *)
Inductive Flavour := Sync | Async.

(** A detached handler task ([tokio::spawn] / [thread::spawn]). *)
Inductive Task : Type :=
| InvocationTask (request_id : Z) (callback : RegisterFn) (inv : InvocationArg)
| EventTask (callback : EventFn) (ev : EventArg).

(** Everything the session shares between its callers, its reader and its
    handler tasks.  [chan_req] and [delivered] are ghost state: the request
    id each reply channel was created for, and the log of every reply sent
    by the dispatcher with the frame that caused it.  [goodbye_chan] and
    [exit_chan] count the values queued on the goodbye and exit channels;
    [reader_pending] is [Some (m, effs)] while the reader is inside a
    [send(()).await] of the dispatch of [m], with [effs] still to do. *)
Record Sys := mkSys {
  state : State;
  idgen : Z;
  next_chan : nat;
  chans : gmap nat (list Reply);
  chan_req : gmap nat Z;
  delivered : list (Sender * Reply * Message);
  wire : list Message;
  tasks : list Task;
  goodbye_chan : nat;
  exit_chan : nat;
  reader_running : bool;
  reader_pending : option (Message * list Effect) }.

Definition init_sys : Sys :=
  mkSys state_default 0 0 ∅ ∅ [] [] [] 0 0 true None.

Definition update_state (f : State -> State) (y : Sys) : Sys :=
  mkSys (f (state y)) (idgen y) (next_chan y) (chans y) (chan_req y)
    (delivered y) (wire y) (tasks y) (goodbye_chan y) (exit_chan y)
    (reader_running y) (reader_pending y).

Definition set_idgen (i : Z) (y : Sys) : Sys :=
  mkSys (state y) i (next_chan y) (chans y) (chan_req y)
    (delivered y) (wire y) (tasks y) (goodbye_chan y) (exit_chan y)
    (reader_running y) (reader_pending y).

Definition set_chans (cs : gmap nat (list Reply)) (y : Sys) : Sys :=
  mkSys (state y) (idgen y) (next_chan y) cs (chan_req y)
    (delivered y) (wire y) (tasks y) (goodbye_chan y) (exit_chan y)
    (reader_running y) (reader_pending y).

Definition set_tasks (ts : list Task) (y : Sys) : Sys :=
  mkSys (state y) (idgen y) (next_chan y) (chans y) (chan_req y)
    (delivered y) (wire y) ts (goodbye_chan y) (exit_chan y)
    (reader_running y) (reader_pending y).

Definition set_goodbye_chan (n : nat) (y : Sys) : Sys :=
  mkSys (state y) (idgen y) (next_chan y) (chans y) (chan_req y)
    (delivered y) (wire y) (tasks y) n (exit_chan y) (reader_running y) (reader_pending y).

Definition set_exit_chan (n : nat) (y : Sys) : Sys :=
  mkSys (state y) (idgen y) (next_chan y) (chans y) (chan_req y)
    (delivered y) (wire y) (tasks y) (goodbye_chan y) n (reader_running y) (reader_pending y).

Definition stop_reader (y : Sys) : Sys :=
  mkSys (state y) (idgen y) (next_chan y) (chans y) (chan_req y)
    (delivered y) (wire y) (tasks y) (goodbye_chan y) (exit_chan y) false (reader_pending y).

Definition set_reader_pending (p : option (Message * list Effect)) (y : Sys) : Sys :=
  mkSys (state y) (idgen y) (next_chan y) (chans y) (chan_req y)
    (delivered y) (wire y) (tasks y) (goodbye_chan y) (exit_chan y) (reader_running y) p.

(** [peer.write(to_send)] succeeding. *)
Definition write_frame (m : Message) (y : Sys) : Sys :=
  mkSys (state y) (idgen y) (next_chan y) (chans y) (chan_req y)
    (delivered y) (wire y ++ [m]) (tasks y) (goodbye_chan y) (exit_chan y)
    (reader_running y) (reader_pending y).

(** [mpsc::channel()]: a fresh channel, created for request [rid]. *)
Definition new_channel (rid : Z) (y : Sys) : Sender * Sys :=
  (next_chan y,
   mkSys (state y) (idgen y) (S (next_chan y)) (<[next_chan y := []]> (chans y))
     (<[next_chan y := rid]> (chan_req y))
     (delivered y) (wire y) (tasks y) (goodbye_chan y) (exit_chan y)
     (reader_running y) (reader_pending y)).

Definition chan_buf (y : Sys) (c : Sender) : list Reply :=
  default [] (chans y !! c).

(** [SessionScopeIDGenerator::next_id] belongs to the wampproto crate;
    it is modelled after the spec's contract (section 4.5): a counter
    that starts at 1 and is strictly increasing. *)
Definition next_id (last : Z) : Z := last + 1.

(** ** The reader *)

(** Apply one dispatcher effect; [cause] is the frame being dispatched. *)
Definition apply_effect (cause : Message) (y : Sys) (e : Effect) : Sys :=
  match e with
  | Deliver c r =>
      mkSys (state y) (idgen y) (next_chan y)
        (<[c := chan_buf y c ++ [r]]> (chans y)) (chan_req y)
        (delivered y ++ [(c, r, cause)]) (wire y) (tasks y)
        (goodbye_chan y) (exit_chan y) (reader_running y) (reader_pending y)
  | SpawnInvocation rid cb inv => set_tasks (tasks y ++ [InvocationTask rid cb inv]) y
  | SpawnEvent cb ev => set_tasks (tasks y ++ [EventTask cb ev]) y
  | SignalGoodbye => set_goodbye_chan (S (goodbye_chan y)) y
  | SignalExit => set_exit_chan (S (exit_chan y)) y
  end.

(** One result of [peer.read()] followed by [proto.receive]. *)
Inductive Incoming : Type :=
| Frame (m : Message)
| DecodeError
| ReadError.

(** The async session's goodbye and exit channels are [mpsc::channel(1)]:
    [send(()).await] waits while the one slot is taken.  The sync
    session's std channels are unbounded: its sends never wait. *)
Definition effect_fits (fl : Flavour) (y : Sys) (e : Effect) : bool :=
  match fl, e with
  | Async, SignalGoodbye => Nat.eqb (goodbye_chan y) 0
  | Async, SignalExit => Nat.eqb (exit_chan y) 0
  | _, _ => true
  end.

Definition is_goodbye_signal (e : Effect) : bool :=
  match e with SignalGoodbye => true | _ => false end.
Definition is_exit_signal (e : Effect) : bool :=
  match e with SignalExit => true | _ => false end.
Definition is_signal (e : Effect) : bool := is_goodbye_signal e || is_exit_signal e.

(** The dispatcher's effects, done in order; at a send that has to wait the
    reader stays inside that [send(()).await] with what is left to do. *)
Fixpoint dispatch_effects (fl : Flavour) (cause : Message) (effs : list Effect) (y : Sys)
    : Sys :=
  match effs with
  | [] => y
  | e :: rest =>
      if effect_fits fl y e
      then dispatch_effects fl cause rest (apply_effect cause y e)
      else set_reader_pending (Some (cause, effs)) y
  end.

(** Whether the async reader is blocked in a [send(()).await]. *)
Definition reader_waits (fl : Flavour) (y : Sys) : bool :=
  match fl, reader_pending y with
  | Async, Some _ => true
  | _, _ => false
  end.

(** One iteration of the reader loop
    [while let Ok(payload) = peer.read() { match proto.receive(payload) .. }];
    a blocked reader reads nothing. *)
Definition reader_step (fl : Flavour) (inc : Incoming) (y : Sys) : Sys :=
  if reader_waits fl y then y
  else if reader_running y then
    match inc with
    | Frame m =>
        let (s', effs) := process_incoming_message m (state y) in
        dispatch_effects fl m effs (update_state (fun _ => s') y)
    | DecodeError => stop_reader y
    | ReadError => stop_reader y
    end
  else y.

(** The reader's waiting [send(()).await] is resumed (the receiving side
    has taken a value): it sends if the slot is free now and goes on with
    the effects after it. *)
Definition reader_send (fl : Flavour) (y : Sys) : Sys :=
  if reader_running y then
    match reader_pending y with
    | Some (m, effs) => dispatch_effects fl m effs (set_reader_pending None y)
    | None => y
    end
  else y.

Fixpoint reader_loop (fl : Flavour) (incs : list Incoming) (y : Sys) : Sys :=
  match incs with
  | [] => y
  | inc :: rest => reader_loop fl rest (reader_step fl inc y)
  end.

(** A detached handler task: runs the callback, and for an invocation
    encodes and writes the [Yield]; [write_ok] is whether the encoding and
    the write succeed (a failure is only logged).  A panic ends the task. *)
Definition run_task (t : Task) (write_ok : bool) (y : Sys) : Sys :=
  match t with
  | InvocationTask rid callback inv =>
      match callback inv with
      | Returns response =>
          if write_ok
          then write_frame (Yield rid ∅ (y_args response) (y_kwargs response)) y
          else y
      | Panics => y
      end
  | EventTask callback ev => y
  end.

(** ** Public operations *)

Inductive Op : Type :=
| OpCall (req : CallRequest)
| OpPublish (req : PublishRequest)
| OpRegister (req : RegisterRequest)
| OpSubscribe (req : SubscribeRequest)
| OpLeave
| OpWaitDisconnect.

Inductive OpResult : Type :=
| CallOk (r : CallResponse)
| PublishOk (r : option PublishResponse)
| RegisterOk (r : RegisterResponse)
| SubscribeOk (r : SubscribeResponse)
| LeaveOk
| Disconnected
| Err (message : string).

(** What an operation does once its frame has been handed to [peer.write]. *)
Inductive AfterWrite : Type :=
| AfterCall (rid : Z) (c : Sender)
| AfterPublishAck (rid : Z) (c : Sender)
| AfterPublishNoAck
| AfterRegister (rid : Z) (c : Sender) (callback : RegisterFn)
| AfterSubscribe (rid : Z) (c : Sender) (callback : EventFn)
| AfterLeave.

(** The control point of a caller inside a public operation. *)
Inductive Thread : Type :=
| Start (o : Op)
| Writing (m : Message) (k : AfterWrite)
| AwaitCall (rid : Z) (c : Sender)
| AwaitPublish (rid : Z) (c : Sender)
| AwaitRegister (rid : Z) (c : Sender) (callback : RegisterFn)
| AwaitSubscribe (rid : Z) (c : Sender) (callback : EventFn)
| AwaitGoodbye
| AwaitExit
| Done (r : OpResult).

(** [if let Some(Value::Bool(acknowledge)) = msg.options.get("acknowledge")] *)
Definition acknowledge (options : Dict) : bool :=
  match options !! "acknowledge"%string with
  | Some (VBool b) => b
  | _ => false
  end.

Definition insert_call (rid : Z) (c : Sender) : State -> State :=
  fun s => set_call_requests (<[rid := c]> (call_requests s)) s.
Definition insert_publish (rid : Z) (c : Sender) : State -> State :=
  fun s => set_publish_requests (<[rid := c]> (publish_requests s)) s.
Definition insert_register (rid : Z) (c : Sender) : State -> State :=
  fun s => set_register_requests (<[rid := c]> (register_requests s)) s.
Definition insert_subscribe (rid : Z) (c : Sender) : State -> State :=
  fun s => set_subscribe_requests (<[rid := c]> (subscribe_requests s)) s.
Definition remove_call (rid : Z) : State -> State :=
  fun s => set_call_requests (delete rid (call_requests s)) s.
Definition remove_publish (rid : Z) : State -> State :=
  fun s => set_publish_requests (delete rid (publish_requests s)) s.
Definition remove_register (rid : Z) : State -> State :=
  fun s => set_register_requests (delete rid (register_requests s)) s.
Definition remove_subscribe (rid : Z) : State -> State :=
  fun s => set_subscribe_requests (delete rid (subscribe_requests s)) s.

(** The first step of an operation, up to the [peer.write]: take the next
    request id, build the message, create the reply channel and, when the
    message encodes ([encode_ok], the result of [proto.send_message]),
    insert the sender into the pending map. *)
Definition start_op (o : Op) (encode_ok : bool) (y : Sys) : Sys * Thread :=
  match o with
  | OpCall request =>
      let request_id := next_id (idgen y) in
      let y := set_idgen request_id y in
      let msg := Call request_id (call_options request) (call_procedure request)
                   (Some (call_args request)) (Some (call_kwargs request)) in
      let '(sender, y) := new_channel request_id y in
      if encode_ok
      then (update_state (insert_call request_id sender) y,
            Writing msg (AfterCall request_id sender))
      else (y, Done (Err "proto failed to parse message"))
  | OpPublish request =>
      let request_id := next_id (idgen y) in
      let y := set_idgen request_id y in
      let msg := Publish request_id (pub_options request) (pub_topic request)
                   (Some (pub_args request)) (Some (pub_kwargs request)) in
      if acknowledge (pub_options request) then
        let '(sender, y) := new_channel request_id y in
        if encode_ok
        then (update_state (insert_publish request_id sender) y,
              Writing msg (AfterPublishAck request_id sender))
        else (y, Done (Err "proto failed to parse message"))
      else
        if encode_ok
        then (y, Writing msg AfterPublishNoAck)
        else (y, Done (Err "proto failed to parse message"))
  | OpRegister request =>
      let request_id := next_id (idgen y) in
      let y := set_idgen request_id y in
      let msg := Register request_id (reg_options request) (reg_procedure request) in
      let '(sender, y) := new_channel request_id y in
      if encode_ok
      then (update_state (insert_register request_id sender) y,
            Writing msg (AfterRegister request_id sender (reg_callback request)))
      else (y, Done (Err "proto failed to parse message"))
  | OpSubscribe request =>
      let request_id := next_id (idgen y) in
      let y := set_idgen request_id y in
      let msg := Subscribe request_id (sub_options request) (sub_topic request) in
      let '(sender, y) := new_channel request_id y in
      if encode_ok
      then (update_state (insert_subscribe request_id sender) y,
            Writing msg (AfterSubscribe request_id sender (sub_callback request)))
      else (y, Done (Err "proto failed to parse message"))
  | OpLeave =>
      let msg := Goodbye ∅ "wamp.close.close_realm" in
      if encode_ok
      then (update_state (set_goodbye_sent true) y, Writing msg AfterLeave)
      else (y, Done (Err "proto failed to parse message"))
  | OpWaitDisconnect => (y, AwaitExit)
  end.

(** [match self.peer.write(to_send)]: on success the frame is on the wire
    and the caller waits on its channel; on failure the just-inserted
    pending entry is removed and an error returned. *)
Definition write_step (m : Message) (k : AfterWrite) (write_ok : bool) (y : Sys)
    : Sys * Thread :=
  if write_ok then
    let y := write_frame m y in
    match k with
    | AfterCall rid c => (y, AwaitCall rid c)
    | AfterPublishAck rid c => (y, AwaitPublish rid c)
    | AfterPublishNoAck => (y, Done (PublishOk None))
    | AfterRegister rid c cb => (y, AwaitRegister rid c cb)
    | AfterSubscribe rid c cb => (y, AwaitSubscribe rid c cb)
    | AfterLeave => (y, AwaitGoodbye)
    end
  else
    match k with
    | AfterCall rid _ => (update_state (remove_call rid) y, Done (Err "failed to send message"))
    | AfterPublishAck rid _ =>
        (update_state (remove_publish rid) y, Done (Err "failed to send message"))
    | AfterPublishNoAck => (y, Done (Err "failed to send message"))
    | AfterRegister rid _ _ =>
        (update_state (remove_register rid) y, Done (Err "failed to send message"))
    | AfterSubscribe rid _ _ =>
        (update_state (remove_subscribe rid) y, Done (Err "failed to send message"))
    | AfterLeave => (y, Done (Err "failed to send message"))
    end.

(** A sender is alive while a pending map holds it (the dispatcher drops
    it when it removes the entry; a failed write drops it too). *)
Definition holds_sender (m : gmap Z Sender) (c : Sender) : bool :=
  existsb (fun kv : Z * Sender => Nat.eqb kv.2 c) (map_to_list m).

Definition sender_alive (s : State) (c : Sender) : bool :=
  holds_sender (call_requests s) c || holds_sender (register_requests s) c
  || holds_sender (unregister_requests s) c || holds_sender (publish_requests s) c
  || holds_sender (subscribe_requests s) c || holds_sender (unsubscribe_requests s) c.

Inductive Recv : Type :=
| Received (r : Reply) (y : Sys)
| Blocked
| Closed.

(** [receiver.recv()]: the next queued value; when the queue is empty the
    caller blocks while the sender lives, and gets [None] / [Err] once it
    has been dropped. *)
Definition recv (c : Sender) (y : Sys) : Recv :=
  match chan_buf y c with
  | r :: rest => Received r (set_chans (<[c := rest]> (chans y)) y)
  | [] => if sender_alive (state y) c then Blocked else Closed
  end.

(** The waiting half of each operation.  The sync [register] and
    [subscribe] insert [response.registration_id -> request.callback()]
    ([response.subscription_id -> ...]) once the reply has arrived; the
    async ones return the response as it is. *)
Definition await_step (fl : Flavour) (t : Thread) (y : Sys) : option (Sys * Thread) :=
  match t with
  | AwaitCall _ c =>
      match recv c y with
      | Received (RCall response) y' => Some (y', Done (CallOk response))
      | Closed => Some (y, Done (Err "call failed"))
      | _ => None
      end
  | AwaitPublish _ c =>
      match recv c y with
      | Received (RPublish response) y' => Some (y', Done (PublishOk (Some response)))
      | Closed => Some (y, Done (Err "publish failed"))
      | _ => None
      end
  | AwaitRegister _ c callback =>
      match recv c y with
      | Received (RRegister response) y' =>
          match fl with
          | Sync =>
              Some (update_state (fun s => set_registrations
                       (<[registration_id response := callback]> (registrations s)) s) y',
                    Done (RegisterOk response))
          | Async => Some (y', Done (RegisterOk response))
          end
      | Closed => Some (y, Done (Err "register failed"))
      | _ => None
      end
  | AwaitSubscribe _ c callback =>
      match recv c y with
      | Received (RSubscribe response) y' =>
          match fl with
          | Sync =>
              Some (update_state (fun s => set_subscriptions
                       (<[subscription_id response := callback]> (subscriptions s)) s) y',
                    Done (SubscribeOk response))
          | Async => Some (y', Done (SubscribeOk response))
          end
      | Closed => Some (y, Done (Err "subscribe failed"))
      | _ => None
      end
  | AwaitGoodbye =>
      match goodbye_chan y with
      | S n => Some (set_goodbye_chan n y, Done LeaveOk)
      | O => if reader_running y then None else Some (y, Done (Err "leave failed"))
      end
  | AwaitExit =>
      match exit_chan y with
      | S n => Some (set_exit_chan n y, Done Disconnected)
      | O =>
          if reader_running y then None
          else match fl with
               | Async => Some (y, Done Disconnected)
               | Sync => Some (y, Done (Err "wait_disconnect panicked"))
               end
      end
  | _ => None
  end.

(** One step of a caller; [ok] resolves the encoding or the write the
    step performs (ignored by the waiting steps). *)
Definition thread_step (fl : Flavour) (ok : bool) (t : Thread) (y : Sys)
    : option (Sys * Thread) :=
  match t with
  | Start o => Some (start_op o ok y)
  | Writing m k => Some (write_step m k ok y)
  | Done _ => None
  | _ => await_step fl t y
  end.

(** ** The whole system: callers, reader and handler tasks interleaved *)

(** A step of caller [i] (with the outcome of its write, if it writes), of
    the reader on the next result of [peer.read()], of handler task [i],
    or the resumption of the reader's waiting signal send. *)
Inductive Action : Type :=
| AThread (i : nat) (ok : bool)
| AReader (inc : Incoming)
| ATask (i : nat) (ok : bool)
| AReaderSend.

Definition sys_step (fl : Flavour) (a : Action) (c : Sys * list Thread)
    : Sys * list Thread :=
  let '(y, ths) := c in
  match a with
  | AThread i ok =>
      match ths !! i with
      | Some t =>
          match thread_step fl ok t y with
          | Some (y', t') => (y', <[i := t']> ths)
          | None => c
          end
      | None => c
      end
  | AReader inc => (reader_step fl inc y, ths)
  | ATask i ok =>
      match tasks y !! i with
      | Some t => (run_task t ok (set_tasks (delete i (tasks y)) y), ths)
      | None => c
      end
  | AReaderSend => (reader_send fl y, ths)
  end.

Definition run (fl : Flavour) (acts : list Action) (c : Sys * list Thread)
    : Sys * list Thread :=
  fold_left (fun c a => sys_step fl a c) acts c.

(** A configuration reachable from a fresh session whose callers each
    invoke one public operation. *)
Definition reachable (fl : Flavour) (c : Sys * list Thread) : Prop :=
  exists ops acts, c = run fl acts (init_sys, map Start ops).

(** ** The RawSocket peer's read ([src/async_/rawsocket.rs]) *)

Module RawSocket.

(** The TCP stream as the successive chunks the network delivers: one
    [read] returns at most what the next chunk holds. *)
Abbreviation Stream := (list (list Byte.byte)).

(** [AsyncReadExt::read(&mut buf)] with [buf.len() = n]: copies at most
    [n] available bytes into the front of [buf] and returns; at the end of
    the stream it returns [Ok(0)]. *)
Definition stream_read (n : nat) (st : Stream) : list Byte.byte * Stream :=
  match st with
  | [] => ([], [])
  | c :: rest =>
      (firstn n c, if Nat.leb (length c) n then rest else skipn n c :: rest)
  end.

(** The zero-initialised buffer ([[0u8; n]], [vec![0u8; n]]) after a read
    that stored [got] at its front. *)
Definition fill (n : nat) (got : list Byte.byte) : list Byte.byte :=
  got ++ repeat Byte.x00 (n - length got).

(** [wampproto::transports::rawsocket::Message]; the peer only ever uses
    [Message::Wamp]. *)
Inductive RSMessage := Wamp.

Record MessageHeader := mkMessageHeader {
  header_kind : RSMessage;
  header_length : nat }.

(** [receive_message_header] belongs to the wampproto crate; it is modelled
    after the frame format of the spec (section 4.2): the type byte of a
    WAMP frame (0) and a 3-byte big-endian length.  Any other type byte is
    not decoded here: the header is refused. *)
Definition receive_message_header (buf : list Byte.byte) : option MessageHeader :=
  match buf with
  | [t; b1; b2; b3] =>
      let len := N.to_nat (Byte.to_N b1 * 65536 + Byte.to_N b2 * 256 + Byte.to_N b3)%N in
      match Byte.to_N t with
      | 0%N => Some (mkMessageHeader Wamp len)
      | _ => None
      end
  | _ => None
  end.

(** [RawSocketPeer::read]: [None] is the [Err] result. *)
Definition read (st : Stream) : option (list Byte.byte) * Stream :=
  let '(got, st) := stream_read 4 st in
  let buf := fill 4 got in
  match receive_message_header buf with
  | None => (None, st)
  | Some header =>
      let '(got, st) := stream_read (header_length header) st in
      (Some (fill (header_length header) got), st)
  end.

(** The read the spec asks for, in its own words: read exactly the 4 header
    bytes, parse the length, read exactly that many payload bytes. *)
Definition read_exactly (n : nat) (st : Stream) : option (list Byte.byte * Stream) :=
  let bytes := concat st in
  if Nat.ltb (length bytes) n then None
  else Some (firstn n bytes, [skipn n bytes]).

Definition spec_read (st : Stream) : option (list Byte.byte * Stream) :=
  match read_exactly 4 st with
  | None => None
  | Some (hdr, st) =>
      match receive_message_header hdr with
      | None => None
      | Some header => read_exactly (header_length header) st
      end
  end.

(** [send_message_header] belongs to the wampproto crate as well; it is
    modelled after the same frame format: the type byte, then the length
    as 3 big-endian bytes. *)
Definition kind_byte (k : RSMessage) : Byte.byte :=
  match k with Wamp => Byte.x00 end.

Definition byte_of_N (n : N) : Byte.byte :=
  match Byte.of_N (n mod 256) with Some b => b | None => Byte.x00 end.

Definition send_message_header (h : MessageHeader) : list Byte.byte :=
  let n := N.of_nat (header_length h) in
  [kind_byte (header_kind h); byte_of_N (n / 65536); byte_of_N (n / 256); byte_of_N n].

(** [RawSocketPeer::write] when both [write_all] calls succeed: the bytes
    it puts on the TCP stream, the header for a [Wamp] message of
    [data.len()] bytes and then the payload. *)
Definition write (data : list Byte.byte) : list Byte.byte :=
  let header := mkMessageHeader Wamp (length data) in
  send_message_header header ++ data.

(** [n] successive [read] calls. *)
Fixpoint read_many (n : nat) (st : Stream) : list (option (list Byte.byte)) * Stream :=
  match n with
  | O => ([], st)
  | S n =>
      let '(r, st) := read st in
      let '(rs, st) := read_many n st in
      (r :: rs, st)
  end.

End RawSocket.

(** ** The WebSocket peer's write ([src/async_/websocket.rs],
    [src/sync/websocket.rs], [src/sync/peer/websocket.rs]) *)

Module WebSocket.

(** [tungstenite::Message]'s two data variants. *)
Inductive WsMessage := Text (data : list Byte.byte) | Binary (data : list Byte.byte).

(** [core::str::Utf8Error]: the length of the valid prefix, and the length
    of the invalid sequence ([None]: the input ends inside a sequence). *)
Record Utf8Error := mkUtf8Error {
  valid_up_to : nat;
  error_len : option nat }.

(** [core::str::validations::utf8_char_width]. *)
Definition utf8_char_width (b : Byte.byte) : nat :=
  let n := Byte.to_N b in
  if N.ltb n 128 then 1
  else if N.ltb n 194 then 0
  else if N.ltb n 224 then 2
  else if N.ltb n 240 then 3
  else if N.ltb n 245 then 4
  else 0.

Definition in_range (lo hi : N) (b : Byte.byte) : bool :=
  N.leb lo (Byte.to_N b) && N.leb (Byte.to_N b) hi.

(** [next!() as i8 >= -64] fails exactly on a continuation byte. *)
Definition is_continuation (b : Byte.byte) : bool := in_range 128 191 b.

(** The patterns on [(first, next!())] for 3- and 4-byte sequences. *)
Definition second_ok_3 (first second : Byte.byte) : bool :=
  (in_range 224 224 first && in_range 160 191 second)
  || (in_range 225 236 first && in_range 128 191 second)
  || (in_range 237 237 first && in_range 128 159 second)
  || (in_range 238 239 first && in_range 128 191 second).

Definition second_ok_4 (first second : Byte.byte) : bool :=
  (in_range 240 240 first && in_range 144 191 second)
  || (in_range 241 243 first && in_range 128 191 second)
  || (in_range 244 244 first && in_range 128 143 second).

(** [core::str::validations::run_utf8_validation], from position [index];
    [None] is [Ok(())]. *)
Fixpoint run_utf8_validation (index : nat) (v : list Byte.byte) : option Utf8Error :=
  match v with
  | [] => None
  | first :: r0 =>
      let err := fun l => Some (mkUtf8Error index l) in
      if N.ltb (Byte.to_N first) 128 then run_utf8_validation (S index) r0
      else
        match utf8_char_width first with
        | 2%nat =>
            match r0 with
            | [] => err None
            | b1 :: r1 =>
                if is_continuation b1 then run_utf8_validation (index + 2) r1
                else err (Some 1%nat)
            end
        | 3%nat =>
            match r0 with
            | [] => err None
            | b1 :: r1 =>
                if second_ok_3 first b1 then
                  match r1 with
                  | [] => err None
                  | b2 :: r2 =>
                      if is_continuation b2 then run_utf8_validation (index + 3) r2
                      else err (Some 2%nat)
                  end
                else err (Some 1%nat)
            end
        | 4%nat =>
            match r0 with
            | [] => err None
            | b1 :: r1 =>
                if second_ok_4 first b1 then
                  match r1 with
                  | [] => err None
                  | b2 :: r2 =>
                      if is_continuation b2 then
                        match r2 with
                        | [] => err None
                        | b3 :: r3 =>
                            if is_continuation b3 then run_utf8_validation (index + 4) r3
                            else err (Some 3%nat)
                        end
                      else err (Some 2%nat)
                  end
                else err (Some 1%nat)
            end
        | _ => err (Some 1%nat)
        end
  end.

(** [String::from_utf8(data)]: the bytes, now a [String], or the error. *)
Definition from_utf8 (data : list Byte.byte) : list Byte.byte + Utf8Error :=
  match run_utf8_validation 0 data with
  | None => inl data
  | Some e => inr e
  end.

(** What [WebSocketPeer::write] does with [data]: the message it hands to
    the writer, or the [Err(Error::new(format!("Not valid UTF-8: {e}")))]
    it returns before sending anything. *)
Inductive WriteAction :=
| Send (m : WsMessage)
| NotValidUtf8 (e : Utf8Error).

Definition write (binary : bool) (data : list Byte.byte) : WriteAction :=
  if binary then Send (Binary data)
  else
    match from_utf8 data with
    | inl as_string => Send (Text as_string)
    | inr e => NotValidUtf8 e
    end.

(** The UTF-8 encoding of a Unicode scalar value, as [char::encode_utf8]
    writes it (the shifts and masks written as divisions and remainders,
    the tag bits added). *)
Definition is_scalar_value (code : N) : bool :=
  N.leb code 1114111 && negb (N.leb 55296 code && N.leb code 57343).

Definition utf8_encode (code : N) : list Byte.byte :=
  let b := RawSocket.byte_of_N in
  if N.ltb code 128 then [b code]
  else if N.ltb code 2048 then
    [b (192 + (code / 64) mod 32)%N; b (128 + code mod 64)%N]
  else if N.ltb code 65536 then
    [b (224 + (code / 4096) mod 16)%N; b (128 + (code / 64) mod 64)%N;
     b (128 + code mod 64)%N]
  else
    [b (240 + (code / 262144) mod 8)%N; b (128 + (code / 4096) mod 64)%N;
     b (128 + (code / 64) mod 64)%N; b (128 + code mod 64)%N].

End WebSocket.

(** ** Choosing the transport ([Client::connect], [src/async_/client.rs]) *)

(** The joiner [connect] runs, or its [Err]. *)
Inductive Joiner := WebSocketJoiner | RawSocketJoiner.

Definition connect (uri : string) : Joiner + string :=
  if String.prefix "ws://" uri || String.prefix "wss://" uri then inl WebSocketJoiner
  else if String.prefix "rs://" uri || String.prefix "rss://" uri
          || String.prefix "tcp://" uri || String.prefix "tcps://" uri
  then inl RawSocketJoiner
  else inr "Invalid URI scheme".

(** ** The HELLO exchange ([join] in [src/async_/joiner.rs],
    [src/sync/joiner.rs] and [src/sync/peer/joiner.rs]) *)

(** wampproto's [Joiner] state machine, left abstract: [send_hello],
    [receive] (which updates the machine) and [session_details]; an
    [inr] is an [Err] with its message. *)
Record Proto (J D : Type) := mkProto {
  send_hello : J -> (list Byte.byte * J) + string;
  receive : J -> list Byte.byte -> (option (list Byte.byte) + string) * J;
  session_details : J -> option D + string }.
Arguments send_hello {J D} p _.
Arguments receive {J D} p _ _.
Arguments session_details {J D} p _.

(** How a [join] ends: with the session details, with an [Err], or still
    waiting in [peer.read()] once the given replies are used up; each
    records the frames written to the peer. *)
Inductive JoinOutcome (D : Type) :=
| Joined (details : D) (sent : list (list Byte.byte))
| JoinFailed (message : string) (sent : list (list Byte.byte))
| JoinPending (sent : list (list Byte.byte)).
Arguments Joined {D} details sent.
Arguments JoinFailed {D} message sent.
Arguments JoinPending {D} sent.

(** The peer as [join] sees it: the successive results of [peer.read()]
    ([inr]: an [Err] with the message of its [Error]) and the result of
    the [n]-th [peer.write] ([None]: [Ok(())]). *)
Abbreviation ReadResult := (list Byte.byte + string)%type.

Section Join.
Context {J D : Type} (p : Proto J D) (write_result : nat -> option string).

(** [peer.write(bytes)?] after [sent]. *)
Definition join_write (bytes : list Byte.byte) (sent : list (list Byte.byte))
    (k : list (list Byte.byte) -> JoinOutcome D) : JoinOutcome D :=
  match write_result (length sent) with
  | Some e => JoinFailed e sent
  | None => k (sent ++ [bytes])
  end.

(** One [reply] offered to the machine, as all three loops do. *)
Definition join_receive (j : J) (reply : list Byte.byte) (sent : list (list Byte.byte))
    (continue : J -> list (list Byte.byte) -> JoinOutcome D) : JoinOutcome D :=
  let '(res, j) := receive p j reply in
  match res with
  | inl (Some to_send) => join_write to_send sent (continue j)
  | inl None =>
      match session_details p j with
      | inl (Some details) => Joined details sent
      | _ => continue j sent
      end
  | inr e => JoinFailed ("failed to join: " ++ e) sent
  end.

(** The async loop: a failed read ends the join
    ([.map_err(|e| Error::new(format!("failed to read: {e}")))?], and an
    [Error] displays as ["Error: " + message]). *)
Fixpoint async_join_loop (j : J) (reads : list ReadResult) (sent : list (list Byte.byte))
    : JoinOutcome D :=
  match reads with
  | [] => JoinPending sent
  | inr e :: _ => JoinFailed ("failed to read: Error: " ++ e) sent
  | inl reply :: rest => join_receive j reply sent (fun j sent => async_join_loop j rest sent)
  end.

(** The sync loops: [if let Ok(reply) = peer.read() { .. }] goes round
    again on a failed read. *)
Fixpoint sync_join_loop (j : J) (reads : list ReadResult) (sent : list (list Byte.byte))
    : JoinOutcome D :=
  match reads with
  | [] => JoinPending sent
  | inr _ :: rest => sync_join_loop j rest sent
  | inl reply :: rest => join_receive j reply sent (fun j sent => sync_join_loop j rest sent)
  end.

(** [join] of [src/async_/joiner.rs]. *)
Definition async_join (j0 : J) (reads : list ReadResult) : JoinOutcome D :=
  match send_hello p j0 with
  | inr e => JoinFailed ("failed to send hello: " ++ e) []
  | inl (hello_raw, j) => join_write hello_raw [] (async_join_loop j reads)
  end.

(** [join] of [src/sync/joiner.rs]. *)
Definition sync_join (j0 : J) (reads : list ReadResult) : JoinOutcome D :=
  match send_hello p j0 with
  | inr e => JoinFailed ("failed to send hello: " ++ e) []
  | inl (hello_raw, j) => join_write hello_raw [] (sync_join_loop j reads)
  end.

(** [join] of [src/sync/peer/joiner.rs]. *)
Definition sync_peer_join (j0 : J) (reads : list ReadResult) : JoinOutcome D :=
  match send_hello p j0 with
  | inl (hello, j) => join_write hello [] (sync_join_loop j reads)
  | inr _ => JoinFailed "failed to send hello" []
  end.

End Join.

(** A small joiner machine used as a concrete input below: it answers a
    nonempty reply with that reply and counts the empty replies; the
    session is established after the first empty one. *)
Definition demo_proto : Proto nat string :=
  mkProto nat string
    (fun j => inl ([Byte.x01], j))
    (fun j reply => match reply with [] => (inl None, S j) | _ :: _ => (inl (Some reply), j) end)
    (fun j => if Nat.eqb j 1 then inl (Some "session"%string) else inl None).

(** ** Request builders ([CallRequest], [PublishRequest] in [src/types.rs]) *)

Definition call_request_new (procedure : string) : CallRequest :=
  mkCallRequest procedure ∅ [] ∅.
Definition call_with_arg (arg : Value) (r : CallRequest) : CallRequest :=
  mkCallRequest (call_procedure r) (call_options r) (call_args r ++ [arg]) (call_kwargs r).
Definition call_with_args (args : list Value) (r : CallRequest) : CallRequest :=
  mkCallRequest (call_procedure r) (call_options r) args (call_kwargs r).
Definition call_with_kwarg (key : string) (value : Value) (r : CallRequest) : CallRequest :=
  mkCallRequest (call_procedure r) (call_options r) (call_args r) (<[key := value]> (call_kwargs r)).
Definition call_with_kwargs (kwargs : Dict) (r : CallRequest) : CallRequest :=
  mkCallRequest (call_procedure r) (call_options r) (call_args r) kwargs.
Definition call_with_option (key : string) (value : Value) (r : CallRequest) : CallRequest :=
  mkCallRequest (call_procedure r) (<[key := value]> (call_options r)) (call_args r) (call_kwargs r).
Definition call_with_options (options : Dict) (r : CallRequest) : CallRequest :=
  mkCallRequest (call_procedure r) options (call_args r) (call_kwargs r).

Definition publish_request_new (topic : string) : PublishRequest :=
  mkPublishRequest topic ∅ [] ∅.
Definition publish_with_arg (arg : Value) (r : PublishRequest) : PublishRequest :=
  mkPublishRequest (pub_topic r) (pub_options r) (pub_args r ++ [arg]) (pub_kwargs r).
Definition publish_with_args (args : list Value) (r : PublishRequest) : PublishRequest :=
  mkPublishRequest (pub_topic r) (pub_options r) args (pub_kwargs r).
Definition publish_with_kwarg (key : string) (value : Value) (r : PublishRequest) : PublishRequest :=
  mkPublishRequest (pub_topic r) (pub_options r) (pub_args r) (<[key := value]> (pub_kwargs r)).
Definition publish_with_kwargs (kwargs : Dict) (r : PublishRequest) : PublishRequest :=
  mkPublishRequest (pub_topic r) (pub_options r) (pub_args r) kwargs.
Definition publish_with_option (key : string) (value : Value) (r : PublishRequest) : PublishRequest :=
  mkPublishRequest (pub_topic r) (<[key := value]> (pub_options r)) (pub_args r) (pub_kwargs r).
Definition publish_with_options (options : Dict) (r : PublishRequest) : PublishRequest :=
  mkPublishRequest (pub_topic r) options (pub_args r) (pub_kwargs r).

(** ** Vocabulary for the statements *)

(** The pending map an ERROR frame's originating type selects, if any. *)
Definition pending_for_error (ty : Z) (s : State) : option (gmap Z Sender) :=
  if Z.eqb ty MESSAGE_TYPE_CALL then Some (call_requests s)
  else if Z.eqb ty MESSAGE_TYPE_REGISTER then Some (register_requests s)
  else if Z.eqb ty MESSAGE_TYPE_UNREGISTER then Some (unregister_requests s)
  else if Z.eqb ty MESSAGE_TYPE_SUBSCRIBE then Some (subscribe_requests s)
  else if Z.eqb ty MESSAGE_TYPE_UNSUBSCRIBE then Some (unsubscribe_requests s)
  else if Z.eqb ty MESSAGE_TYPE_PUBLISH then Some (publish_requests s)
  else None.

(** Replace that map. *)
Definition set_pending_for_error (ty : Z) (m : gmap Z Sender) (s : State) : State :=
  if Z.eqb ty MESSAGE_TYPE_CALL then set_call_requests m s
  else if Z.eqb ty MESSAGE_TYPE_REGISTER then set_register_requests m s
  else if Z.eqb ty MESSAGE_TYPE_UNREGISTER then set_unregister_requests m s
  else if Z.eqb ty MESSAGE_TYPE_SUBSCRIBE then set_subscribe_requests m s
  else if Z.eqb ty MESSAGE_TYPE_UNSUBSCRIBE then set_unsubscribe_requests m s
  else if Z.eqb ty MESSAGE_TYPE_PUBLISH then set_publish_requests m s
  else s.

(** The error field of a reply, and the request type it answers. *)
Definition reply_error (r : Reply) : option WampError :=
  match r with
  | RCall c => cr_error c
  | RRegister c => rr_error c
  | RUnregister e => e
  | RPublish p => pr_error p
  | RSubscribe c => sr_error c
  | RUnsubscribe e => e
  end.

Definition reply_request_type (r : Reply) : Z :=
  match r with
  | RCall _ => MESSAGE_TYPE_CALL
  | RRegister _ => MESSAGE_TYPE_REGISTER
  | RUnregister _ => MESSAGE_TYPE_UNREGISTER
  | RPublish _ => MESSAGE_TYPE_PUBLISH
  | RSubscribe _ => MESSAGE_TYPE_SUBSCRIBE
  | RUnsubscribe _ => MESSAGE_TYPE_UNSUBSCRIBE
  end.

(** A frame that answers publication [rid]: PUBLISHED or ERROR(PUBLISH). *)
Definition publish_reply_frame (m : Message) (rid : Z) : Prop :=
  (exists pid, m = Published rid pid)
  \/ (exists d u a k, m = ErrorMsg MESSAGE_TYPE_PUBLISH rid d u a k).

(** The pending entries of a state, all maps together. *)
Definition pending_maps (s : State) :=
  (call_requests s, register_requests s, unregister_requests s,
   publish_requests s, subscribe_requests s, unsubscribe_requests s).

Definition is_unregister_or_unsubscribe (m : Message) : bool :=
  match m with
  | Unregister _ _ | Unsubscribe _ _ => true
  | _ => false
  end.

(** Invariant behind acknowledged publications: every channel name in
    use is below [next_chan]; every publish reply queued on a channel was
    logged with a PUBLISHED or ERROR(PUBLISH) frame for the request the
    channel was created for; [publish_requests] files each channel under
    that request id; and so does every caller inside [publish]. *)
Definition chan_req_bounded (y : Sys) : Prop :=
  forall c, is_Some (chan_req y !! c) -> (c < next_chan y)%nat.

Definition publish_buffers_explained (y : Sys) : Prop :=
  forall c p, In (RPublish p) (chan_buf y c) ->
    exists m rid, chan_req y !! c = Some rid /\ publish_reply_frame m rid
                  /\ In (c, RPublish p, m) (delivered y).

Definition publish_chans_tagged (y : Sys) : Prop :=
  forall rid c, publish_requests (state y) !! rid = Some c -> chan_req y !! c = Some rid.

Definition thread_tagged (y : Sys) (t : Thread) : Prop :=
  match t with
  | AwaitPublish rid c => chan_req y !! c = Some rid
  | Writing _ (AfterPublishAck rid c) => chan_req y !! c = Some rid
  | _ => True
  end.

Definition publish_inv (y : Sys) (ths : list Thread) : Prop :=
  chan_req_bounded y /\ publish_buffers_explained y /\ publish_chans_tagged y
  /\ Forall (thread_tagged y) ths.

(** Invariant behind the missing unregister / unsubscribe: their pending
    maps stay empty, and no such frame is written or about to be. *)
Definition thread_writes_no_unregister (t : Thread) : Prop :=
  match t with
  | Writing m _ => is_unregister_or_unsubscribe m = false
  | _ => True
  end.

Definition unregister_inv (y : Sys) (ths : list Thread) : Prop :=
  unregister_requests (state y) = ∅ /\ unsubscribe_requests (state y) = ∅
  /\ Forall (fun m => is_unregister_or_unsubscribe m = false) (wire y)
  /\ Forall thread_writes_no_unregister ths.

(** The pending map an operation files its reply channel in, if any. *)
Definition pending_map_of (o : Op) (s : State) : option (gmap Z Sender) :=
  match o with
  | OpCall _ => Some (call_requests s)
  | OpPublish req => if acknowledge (pub_options req) then Some (publish_requests s) else None
  | OpRegister _ => Some (register_requests s)
  | OpSubscribe _ => Some (subscribe_requests s)
  | OpLeave | OpWaitDisconnect => None
  end.

(** Invariant behind fresh request ids: no pending map holds an entry
    under an id the generator has not handed out yet. *)
Definition ids_fresh (y : Sys) : Prop :=
  forall k, idgen y < k ->
    call_requests (state y) !! k = None /\ register_requests (state y) !! k = None
    /\ unregister_requests (state y) !! k = None /\ publish_requests (state y) !! k = None
    /\ subscribe_requests (state y) !! k = None /\ unsubscribe_requests (state y) !! k = None.

Definition is_goodbye (m : Message) : bool :=
  match m with Goodbye _ _ => true | _ => false end.

Definition thread_writes_no_goodbye (t : Thread) : Prop :=
  match t with
  | Writing m _ => is_goodbye m = false
  | _ => True
  end.

(** Invariant behind [leave]: until [goodbye_sent] is set no GOODBYE has
    been written or is about to be. *)
Definition goodbye_inv (y : Sys) (ths : list Thread) : Prop :=
  goodbye_sent (state y) = false ->
  Forall (fun m => is_goodbye m = false) (wire y) /\ Forall thread_writes_no_goodbye ths.

Definition is_error_frame (m : Message) : bool :=
  match m with ErrorMsg _ _ _ _ _ _ => true | _ => false end.

Definition thread_writes_no_error (t : Thread) : Prop :=
  match t with
  | Writing m _ => is_error_frame m = false
  | _ => True
  end.

(** Invariant behind the handler tasks: no ERROR frame has been written
    to the peer, and no caller is about to write one. *)
Definition error_inv (y : Sys) (ths : list Thread) : Prop :=
  Forall (fun m => is_error_frame m = false) (wire y) /\ Forall thread_writes_no_error ths.

(** The signals a blocked reader still has to send. *)
Definition pending_signals (y : Sys) : Prop :=
  match reader_pending y with
  | Some (_, effs) => Forall (fun e => is_signal e = true) effs
  | None => True
  end.

(** ** Concrete inputs for the examples *)

Definition echo_handler : RegisterFn :=
  fun inv => Returns (mkYieldArg (inv_args inv) (inv_kwargs inv)).
Definition panicking_handler : RegisterFn := fun _ => Panics.
Definition print_event : EventFn := fun _ => Returns tt.
Definition panicking_event : EventFn := fun _ => Panics.

Definition echo_register : RegisterRequest :=
  mkRegisterRequest "io.xconn.echo" ∅ echo_handler.
Definition failing_register : RegisterRequest :=
  mkRegisterRequest "io.xconn.fail" ∅ panicking_handler.
Definition event_subscribe : SubscribeRequest :=
  mkSubscribeRequest "io.xconn.event" ∅ print_event.
Definition echo_call : CallRequest :=
  mkCallRequest "io.xconn.echo" ∅ [VInt 1] {["name"%string := VStr "John"]}.
Definition ack_publish : PublishRequest :=
  mkPublishRequest "t" {["acknowledge"%string := VBool true]} [VStr "x"] ∅.
Definition plain_publish : PublishRequest :=
  mkPublishRequest "t" ∅ [VStr "x"] ∅.

(** A session whose [register] has sent REGISTER (request id 1, channel 0)
    and waits for the reply. *)
Definition register_sent (fl : Flavour) : Sys * list Thread :=
  run fl [AThread 0 true; AThread 0 true] (init_sys, [Start (OpRegister echo_register)]).

(** A session whose [subscribe] has sent SUBSCRIBE (request id 1, channel 0). *)
Definition subscribe_sent (fl : Flavour) : Sys * list Thread :=
  run fl [AThread 0 true; AThread 0 true] (init_sys, [Start (OpSubscribe event_subscribe)]).

(** A session whose [call] has sent CALL (request id 1, channel 0). *)
Definition call_sent (fl : Flavour) : Sys * list Thread :=
  run fl [AThread 0 true; AThread 0 true] (init_sys, [Start (OpCall echo_call)]).

(** A sync session in which [failing_register] got REGISTERED(1, 42):
    the panicking handler is installed under 42. *)
Definition failing_register_acts : list Action :=
  [AThread 0 true; AThread 0 true; AReader (Frame (Registered 1 42)); AThread 0 true].

Definition failing_registered_cfg : Sys * list Thread :=
  run Sync failing_register_acts (init_sys, [Start (OpRegister failing_register)]).

Definition failing_registered : Sys := fst failing_registered_cfg.

(** The session of [failing_registered] after the reader has dispatched
    INVOCATION(7, 42): the panicking handler's task is spawned. *)
Definition failing_invoked_cfg : Sys * list Thread :=
  run Sync (failing_register_acts ++ [AReader (Frame (Invocation 7 42 ∅ None None))])
    (init_sys, [Start (OpRegister failing_register)]).

(** A sync session whose [leave] has written its GOODBYE. *)
Definition leave_sent : Sys * list Thread :=
  run Sync [AThread 0 true; AThread 0 true] (init_sys, [Start OpLeave]).

(** An async session whose [leave] has written its GOODBYE and whose
    reader has dispatched the router's GOODBYE: both one-slot channels
    hold their value, which [leave] and [wait_disconnect] have not taken
    yet. *)
Definition goodbye_answered_async : Sys * list Thread :=
  run Async [AThread 0 true; AThread 0 true;
             AReader (Frame (Goodbye ∅ "wamp.close.goodbye_and_out"))]
    (init_sys, [Start OpLeave]).

(** A sync session whose [call] sent CALL (request id 1, channel 0), after
    which [peer.read()] failed and the reader loop ended. *)
Definition call_sent_reader_failed : Sys * list Thread :=
  run Sync [AThread 0 true; AThread 0 true; AReader ReadError]
    (init_sys, [Start (OpCall echo_call)]).

(** A sync session whose acknowledged [publish] sent PUBLISH (request id 1,
    channel 0) and got PUBLISHED(1, 5) back; and the same after the
    publisher took the reply. *)
Definition ack_publish_answered : Sys * list Thread :=
  run Sync [AThread 0 true; AThread 0 true; AReader (Frame (Published 1 5))]
    (init_sys, [Start (OpPublish ack_publish)]).

Definition ack_publish_returned : Sys :=
  fst (run Sync [AThread 0 true] ack_publish_answered).

(** ** Facts about the dispatcher and the reader *)

Lemma update_state_same (y : Sys) : update_state (fun _ => state y) y = y.
Proof. destruct y; reflexivity. Qed.

Lemma reader_step_no_effect fl (y : Sys) m :
  process_incoming_message m (state y) = (state y, []) ->
  reader_step fl (Frame m) y = y.
Proof.
  intros H. unfold reader_step. destruct (reader_waits fl y); [reflexivity|].
  destruct (reader_running y) eqn:Hr; [|reflexivity].
  rewrite H. apply update_state_same.
Qed.

Lemma fold_apply_effect_pending m effs (y : Sys) :
  reader_pending (fold_left (apply_effect m) effs y) = reader_pending y.
Proof.
  revert y. induction effs as [|e effs IH]; intros y; simpl; [reflexivity|].
  rewrite IH. destruct e; reflexivity.
Qed.

(** [dispatch_effects] does a prefix of the effects and, when it stops
    early, waits at the first one left, a send that does not fit. *)
Lemma dispatch_effects_split fl m effs (y : Sys) :
  exists pre post, effs = pre ++ post
    /\ dispatch_effects fl m effs y
       = match post with
         | [] => fold_left (apply_effect m) pre y
         | _ :: _ => set_reader_pending (Some (m, post)) (fold_left (apply_effect m) pre y)
         end
    /\ (forall e rest, post = e :: rest ->
          effect_fits fl (fold_left (apply_effect m) pre y) e = false).
Proof.
  revert y. induction effs as [|e effs IH]; intros y; simpl.
  - exists [], []. split; [reflexivity|]. split; [reflexivity|]. intros ? ? [=].
  - destruct (effect_fits fl y e) eqn:Hf.
    + destruct (IH (apply_effect m y e)) as (pre & post & -> & H1 & H2).
      exists (e :: pre), post. simpl. auto.
    + exists [], (e :: effs). simpl. split; [reflexivity|]. split; [reflexivity|].
      intros e' r [= <- <-]. exact Hf.
Qed.

Lemma effect_fits_signal fl (y : Sys) e :
  effect_fits fl y e = false -> fl = Async /\ is_signal e = true.
Proof. destruct fl, e; simpl; try discriminate; auto. Qed.

Lemma dispatch_sync m effs (y : Sys) :
  dispatch_effects Sync m effs y = fold_left (apply_effect m) effs y.
Proof.
  revert y. induction effs as [|e effs IH]; intros y; simpl; [reflexivity|].
  destruct e; apply IH.
Qed.

Lemma dispatch_effects_frame fl m effs (y : Sys) :
  let y' := dispatch_effects fl m effs y in
  state y' = state y /\ wire y' = wire y /\ chan_req y' = chan_req y
  /\ next_chan y' = next_chan y /\ idgen y' = idgen y /\ reader_running y' = reader_running y.
Proof.
  revert y. induction effs as [|e effs IH]; intros y; simpl; [auto 7|].
  destruct (effect_fits fl y e); [|simpl; auto 7].
  destruct (IH (apply_effect m y e)) as (H1 & H2 & H3 & H4 & H5 & H6).
  rewrite H1, H2, H3, H4, H5, H6. destruct e; simpl; auto 7.
Qed.

(** What one reader step can do. *)
Lemma reader_step_cases fl inc (y : Sys) :
  reader_step fl inc y = y
  \/ (reader_running y = true /\ reader_step fl inc y = stop_reader y)
  \/ exists m s' effs,
       inc = Frame m /\ reader_running y = true /\ reader_waits fl y = false
       /\ process_incoming_message m (state y) = (s', effs)
       /\ reader_step fl inc y = dispatch_effects fl m effs (update_state (fun _ => s') y).
Proof.
  unfold reader_step. destruct (reader_waits fl y) eqn:Hw; [auto|].
  destruct (reader_running y) eqn:Hr; [|auto].
  destruct inc as [m| |]; [|auto|auto].
  destruct (process_incoming_message m (state y)) as [s' effs] eqn:Hp.
  right; right. exists m, s', effs. auto.
Qed.

Lemma reader_send_cases fl (y : Sys) :
  reader_send fl y = y
  \/ exists m effs, reader_running y = true /\ reader_pending y = Some (m, effs)
       /\ reader_send fl y = dispatch_effects fl m effs (set_reader_pending None y).
Proof.
  unfold reader_send. destruct (reader_running y) eqn:Hr; [|auto].
  destruct (reader_pending y) as [[m effs]|] eqn:Hp; [|auto].
  right. exists m, effs. auto.
Qed.

(** The dispatcher sends either no signal or nothing but signals. *)
Lemma dispatch_signals m (s s' : State) effs :
  process_incoming_message m s = (s', effs) ->
  Forall (fun e => is_signal e = false) effs \/ Forall (fun e => is_signal e = true) effs.
Proof.
  intros H. destruct m; cbn [process_incoming_message] in H;
    repeat case_match; injection H as <- <-;
    try destruct (goodbye_sent _);
    first [left; solve [repeat constructor] | right; solve [repeat constructor]].
Qed.

(** C3: an ERROR frame for a pending request of type CALL, REGISTER,
    UNREGISTER, SUBSCRIBE, UNSUBSCRIBE or PUBLISH removes exactly that
    entry of exactly that map and sends one reply whose error field carries
    the frame's uri, args and kwargs; an ERROR frame of any other
    originating type leaves the state unchanged and does nothing else. *)
Theorem error_frame_dispatch :
  forall ty rid details uri args kwargs (s : State),
    (forall (m : gmap Z Sender) c,
        pending_for_error ty s = Some m -> m !! rid = Some c ->
        exists r,
          process_incoming_message (ErrorMsg ty rid details uri args kwargs) s
          = (set_pending_for_error ty (delete rid m) s, [Deliver c r])
          /\ reply_error r = Some (mkWampError uri args kwargs)
          /\ reply_request_type r = ty)
    /\ (pending_for_error ty s = None ->
        process_incoming_message (ErrorMsg ty rid details uri args kwargs) s = (s, [])).
Proof.
  intros ty rid details uri args kwargs s. split.
  - intros m c Hm Hc. unfold pending_for_error in Hm.
    unfold set_pending_for_error. cbn [process_incoming_message].
    repeat match type of Hm with
    | context [Z.eqb ty ?k] =>
        let E := fresh "E" in
        destruct (Z.eqb ty k) eqn:E;
        [ apply Z.eqb_eq in E; subst ty; injection Hm as <-; rewrite Hc;
          eexists; (split; [reflexivity | split; reflexivity]) | ]
    end.
    discriminate.
  - intros Hm. unfold pending_for_error in Hm. cbn [process_incoming_message].
    repeat match type of Hm with
    | context [Z.eqb ty ?k] =>
        let E := fresh "E" in
        destruct (Z.eqb ty k) eqn:E; [discriminate | ]
    end.
    reflexivity.
Qed.

(** C9: a RESULT frame whose request id is not in [call_requests], and an
    ERROR frame whose request id is not in the pending map its type
    selects (or whose type selects none), leave the whole system as it is:
    no pending map, handler registry, channel, signal or task changes. *)
Theorem unsolicited_reply_ignored :
  forall fl (y : Sys) rid details args kwargs ty uri,
    (call_requests (state y) !! rid = None ->
     reader_step fl (Frame (Result_ rid details args kwargs)) y = y)
    /\ (match pending_for_error ty (state y) with
        | Some m => m !! rid = None
        | None => True
        end ->
        reader_step fl (Frame (ErrorMsg ty rid details uri args kwargs)) y = y).
Proof.
  intros fl y rid details args kwargs ty uri. split.
  - intros H. apply reader_step_no_effect. cbn [process_incoming_message].
    rewrite H. reflexivity.
  - intros H. apply reader_step_no_effect. unfold pending_for_error in H.
    cbn [process_incoming_message].
    repeat match type of H with
    | context [Z.eqb ty ?k] =>
        let E := fresh "E" in
        destruct (Z.eqb ty k) eqn:E; [rewrite H; reflexivity | ]
    end.
    reflexivity.
Qed.

Lemma recv_fresh_reply (y : Sys) c r :
  chan_buf y c = [r] ->
  recv c y = Received r (set_chans (<[c := []]> (chans y)) y).
Proof. intros H. unfold recv. rewrite H. reflexivity. Qed.

Lemma deliver_into_empty (y : Sys) c r m :
  chan_buf y c = [] -> chan_buf (apply_effect m y (Deliver c r)) c = [r].
Proof.
  intros H. unfold chan_buf at 1. cbn [apply_effect chans].
  rewrite lookup_insert_eq, H. reflexivity.
Qed.

Lemma sync_register_error_zero (y : Sys) rid c callback details uri args kwargs :
  reader_running y = true ->
  register_requests (state y) !! rid = Some c ->
  chan_buf y c = [] ->
  exists y2 resp,
    thread_step Sync true (AwaitRegister rid c callback)
      (reader_step Sync (Frame (ErrorMsg MESSAGE_TYPE_REGISTER rid details uri args kwargs)) y)
    = Some (y2, Done (RegisterOk resp))
    /\ registration_id resp = 0
    /\ rr_error resp = Some (mkWampError uri args kwargs)
    /\ registrations (state y2) !! 0 = Some callback.
Proof.
  intros Hrun Hreq Hbuf. unfold reader_step. cbn [reader_waits]. rewrite Hrun.
  cbn [process_incoming_message]. simpl Z.eqb. cbv iota. rewrite Hreq.
  rewrite dispatch_sync. cbn [fold_left].
  set (y1 := update_state _ y).
  assert (Hb : chan_buf y1 c = []) by (subst y1; exact Hbuf).
  cbn [thread_step await_step].
  rewrite (recv_fresh_reply _ _ _ (deliver_into_empty y1 c _ _ Hb)).
  eexists; eexists; split; [reflexivity|].
  simpl. split; [reflexivity|]. split; [reflexivity|].
  apply lookup_insert_eq.
Qed.

Lemma sync_subscribe_error_zero (y : Sys) rid c callback details uri args kwargs :
  reader_running y = true ->
  subscribe_requests (state y) !! rid = Some c ->
  chan_buf y c = [] ->
  exists y2 resp,
    thread_step Sync true (AwaitSubscribe rid c callback)
      (reader_step Sync (Frame (ErrorMsg MESSAGE_TYPE_SUBSCRIBE rid details uri args kwargs)) y)
    = Some (y2, Done (SubscribeOk resp))
    /\ subscription_id resp = 0
    /\ sr_error resp = Some (mkWampError uri args kwargs)
    /\ subscriptions (state y2) !! 0 = Some callback.
Proof.
  intros Hrun Hreq Hbuf. unfold reader_step. cbn [reader_waits]. rewrite Hrun.
  cbn [process_incoming_message]. simpl Z.eqb. cbv iota. rewrite Hreq.
  rewrite dispatch_sync. cbn [fold_left].
  set (y1 := update_state _ y).
  assert (Hb : chan_buf y1 c = []) by (subst y1; exact Hbuf).
  cbn [thread_step await_step].
  rewrite (recv_fresh_reply _ _ _ (deliver_into_empty y1 c _ _ Hb)).
  eexists; eexists; split; [reflexivity|].
  simpl. split; [reflexivity|]. split; [reflexivity|].
  apply lookup_insert_eq.
Qed.

(** C10: in the sync session a [register] ([subscribe]) answered by
    ERROR(REGISTER) (ERROR(SUBSCRIBE)) still inserts the request's callback
    into [registrations] ([subscriptions]), under the id 0 that the
    dispatcher puts in the error response. *)
Theorem sync_failed_register_keyed_zero :
  forall (y : Sys) rid c callback ecallback details uri args kwargs,
    reader_running y = true ->
    chan_buf y c = [] ->
    (register_requests (state y) !! rid = Some c ->
     exists y2 resp,
       thread_step Sync true (AwaitRegister rid c callback)
         (reader_step Sync (Frame (ErrorMsg MESSAGE_TYPE_REGISTER rid details uri args kwargs)) y)
       = Some (y2, Done (RegisterOk resp))
       /\ registration_id resp = 0
       /\ rr_error resp = Some (mkWampError uri args kwargs)
       /\ registrations (state y2) !! 0 = Some callback)
    /\ (subscribe_requests (state y) !! rid = Some c ->
     exists y2 resp,
       thread_step Sync true (AwaitSubscribe rid c ecallback)
         (reader_step Sync (Frame (ErrorMsg MESSAGE_TYPE_SUBSCRIBE rid details uri args kwargs)) y)
       = Some (y2, Done (SubscribeOk resp))
       /\ subscription_id resp = 0
       /\ sr_error resp = Some (mkWampError uri args kwargs)
       /\ subscriptions (state y2) !! 0 = Some ecallback).
Proof.
  intros y rid c callback ecallback details uri args kwargs Hrun Hbuf. split.
  - intros Hreq. apply sync_register_error_zero; assumption.
  - intros Hreq. apply sync_subscribe_error_zero; assumption.
Qed.

Lemma sync_failed_register_keyed_zero_witness :
  let y := fst (register_sent Sync) in
  reader_running y = true /\ chan_buf y 0 = [] /\
  register_requests (state y) !! 1 = Some 0%nat /\
  exists y2 resp,
    thread_step Sync true (AwaitRegister 1 0 echo_handler)
      (reader_step Sync (Frame (ErrorMsg MESSAGE_TYPE_REGISTER 1 ∅
                                  "wamp.error.procedure_already_exists" None None)) y)
    = Some (y2, Done (RegisterOk resp))
    /\ registration_id resp = 0
    /\ rr_error resp = Some (mkWampError "wamp.error.procedure_already_exists" None None)
    /\ registrations (state y2) !! 0 = Some echo_handler.
Proof.
  intros y.
  assert (H1 : reader_running y = true) by reflexivity.
  assert (H2 : chan_buf y 0 = []) by reflexivity.
  assert (H3 : register_requests (state y) !! 1 = Some 0%nat) by reflexivity.
  split; [exact H1 | split; [exact H2 | split; [exact H3 |]]].
  apply (proj1 (sync_failed_register_keyed_zero y 1 0 echo_handler print_event ∅
           "wamp.error.procedure_already_exists" None None H1 H2)).
  exact H3.
Defined.

(** C8: when the peer write of a call, register, subscribe or acknowledged
    publish fails, the operation removes the entry it has just inserted and
    returns an error: with a fresh request id, the session state is exactly
    what it was before the operation. *)
Theorem write_failure_restores_pending :
  forall fl (y : Sys) (o : Op) (m : gmap Z Sender),
    pending_map_of o (state y) = Some m ->
    m !! next_id (idgen y) = None ->
    exists y1 msg k y2 e c,
      thread_step fl true (Start o) y = Some (y1, Writing msg k)
      /\ pending_map_of o (state y1) = Some (<[next_id (idgen y) := c]> m)
      /\ thread_step fl false (Writing msg k) y1 = Some (y2, Done (Err e))
      /\ state y2 = state y.
Proof.
  intros fl y o m Hm Hfresh.
  destruct o as [req|req|req|req| |]; simpl in Hm.
  - injection Hm as <-. do 6 eexists. split; [reflexivity|]. split; [reflexivity|].
    split; [reflexivity|]. destruct y as [s]; destruct s; simpl in *.
    unfold remove_call, insert_call, set_call_requests; simpl.
    rewrite delete_insert_id by exact Hfresh. reflexivity.
  - destruct (acknowledge (pub_options req)) eqn:Hack; [|discriminate].
    injection Hm as <-. do 6 eexists. simpl thread_step. unfold start_op. rewrite Hack.
    split; [reflexivity|]. split; [simpl; rewrite Hack; reflexivity|].
    split; [reflexivity|]. destruct y as [s]; destruct s; simpl in *.
    unfold remove_publish, insert_publish, set_publish_requests; simpl.
    rewrite delete_insert_id by exact Hfresh. reflexivity.
  - injection Hm as <-. do 6 eexists. split; [reflexivity|]. split; [reflexivity|].
    split; [reflexivity|]. destruct y as [s]; destruct s; simpl in *.
    unfold remove_register, insert_register, set_register_requests; simpl.
    rewrite delete_insert_id by exact Hfresh. reflexivity.
  - injection Hm as <-. do 6 eexists. split; [reflexivity|]. split; [reflexivity|].
    split; [reflexivity|]. destruct y as [s]; destruct s; simpl in *.
    unfold remove_subscribe, insert_subscribe, set_subscribe_requests; simpl.
    rewrite delete_insert_id by exact Hfresh. reflexivity.
  - discriminate.
  - discriminate.
Qed.

Lemma write_failure_restores_pending_witness :
  pending_map_of (OpCall echo_call) (state init_sys) = Some ∅ /\
  (∅ : gmap Z Sender) !! next_id (idgen init_sys) = None /\
  exists y1 msg k y2 e c,
    thread_step Async true (Start (OpCall echo_call)) init_sys = Some (y1, Writing msg k)
    /\ pending_map_of (OpCall echo_call) (state y1) = Some (<[next_id (idgen init_sys) := c]> ∅)
    /\ thread_step Async false (Writing msg k) y1 = Some (y2, Done (Err e))
    /\ state y2 = state init_sys.
Proof.
  split; [reflexivity | split; [reflexivity |]].
  apply (write_failure_restores_pending Async init_sys (OpCall echo_call) ∅);
    reflexivity.
Defined.

(** C1 (failing input): in the async session, [register] answered by
    REGISTERED(1, 42) returns [Ok] with registration id 42, yet nothing
    is installed in [registrations]: the following INVOCATION for 42 is
    dropped (no task, no YIELD).  Likewise [subscribe] answered by
    SUBSCRIBED(1, 7) installs nothing and the following EVENT for 7 is
    dropped. *)
Theorem async_register_installs_no_handler :
  (let '(y, ths) :=
     run Async [AThread 0 true; AThread 0 true; AReader (Frame (Registered 1 42));
                AThread 0 true; AReader (Frame (Invocation 7 42 ∅ (Some [VInt 1]) None))]
       (init_sys, [Start (OpRegister echo_register)]) in
   ths = [Done (RegisterOk (mkRegisterResponse 42 None))]
   /\ registrations (state y) !! 42 = None
   /\ tasks y = []
   /\ wire y = [Register 1 ∅ "io.xconn.echo"])
  /\
  (let '(y, ths) :=
     run Async [AThread 0 true; AThread 0 true; AReader (Frame (Subscribed 1 7));
                AThread 0 true; AReader (Frame (Event 7 3 ∅ (Some [VStr "a"]) None))]
       (init_sys, [Start (OpSubscribe event_subscribe)]) in
   ths = [Done (SubscribeOk (mkSubscribeResponse 7 None))]
   /\ subscriptions (state y) !! 7 = None
   /\ tasks y = []).
Proof. vm_compute. repeat split. Qed.

(** The sync session, on the same input, installs the handler and runs it
    for the INVOCATION. *)
Lemma sync_register_installs_handler :
  let '(y, ths) :=
    run Sync [AThread 0 true; AThread 0 true; AReader (Frame (Registered 1 42));
              AThread 0 true; AReader (Frame (Invocation 7 42 ∅ (Some [VInt 1]) None));
              ATask 0 true]
      (init_sys, [Start (OpRegister echo_register)]) in
  ths = [Done (RegisterOk (mkRegisterResponse 42 None))]
  /\ registrations (state y) !! 42 = Some echo_handler
  /\ wire y = [Register 1 ∅ "io.xconn.echo"; Yield 7 ∅ (Some [VInt 1]) None].
Proof. vm_compute. repeat split. Qed.

Ltac signals_split :=
  split; [reflexivity|];
  split; [cbn; lia|]; split; [cbn; lia|]; split; [reflexivity|];
  split;
  [ intros ? ? Hw; first [discriminate Hw | injection Hw as <- <-; split; reflexivity]
  | intros z Hz1 Hz2 Hz3 Hz4; unfold reader_send; rewrite Hz1, Hz2;
    destruct z as [? ? ? ? ? ? ? ? gz ez ? ?];
    simpl in Hz1, Hz2, Hz3, Hz4 |- *; subst gz ez; cbn; repeat split; exact Hz1 ].

(** C5 (amended): on GOODBYE the reader sends the goodbye signal exactly
    when [goodbye_sent] is set, then the exit signal, and changes nothing
    else; it does not stop.  The sends go out in order; in the sync
    session they all complete at once, in the async session the first
    one whose one-slot channel is full waits, with the ones after it.
    While it waits the reader reads and dispatches nothing; once the send
    is resumed with the slots free it completes the remaining sends and
    reads on.  The loop then ends only on a read or decode error. *)
Theorem goodbye_signals_reader_continues :
  forall fl (y : Sys) details reason,
    reader_running y = true -> reader_pending y = None ->
    let m := Goodbye details reason in
    let sigs := (if goodbye_sent (state y) then [SignalGoodbye] else []) ++ [SignalExit] in
    let y' := reader_step fl (Frame m) y in
    state y' = state y /\ chans y' = chans y /\ delivered y' = delivered y
    /\ wire y' = wire y /\ tasks y' = tasks y /\ reader_running y' = true
    /\ (exists sent waiting,
          sigs = sent ++ waiting
          /\ goodbye_chan y' = (goodbye_chan y + length (List.filter is_goodbye_signal sent))%nat
          /\ exit_chan y' = (exit_chan y + length (List.filter is_exit_signal sent))%nat
          /\ reader_pending y' = match waiting with [] => None | _ => Some (m, waiting) end
          /\ (forall e rest, waiting = e :: rest -> fl = Async /\ effect_fits fl y' e = false)
          /\ (forall z : Sys,
                reader_running z = true -> reader_pending z = Some (m, waiting) ->
                goodbye_chan z = 0%nat -> exit_chan z = 0%nat ->
                let z' := reader_send fl z in
                reader_pending z' = None
                /\ goodbye_chan z' = length (List.filter is_goodbye_signal waiting)
                /\ exit_chan z' = length (List.filter is_exit_signal waiting)
                /\ state z' = state z /\ chans z' = chans z /\ delivered z' = delivered z
                /\ wire z' = wire z /\ tasks z' = tasks z /\ reader_running z' = true))
    /\ ((fl = Sync \/ (goodbye_chan y = 0%nat /\ exit_chan y = 0%nat)) ->
        goodbye_chan y' = (goodbye_chan y + (if goodbye_sent (state y) then 1 else 0))%nat
        /\ exit_chan y' = S (exit_chan y) /\ reader_pending y' = None)
    /\ (forall inc, reader_pending y' <> None -> reader_step fl inc y' = y')
    /\ (forall inc, reader_pending y' = None ->
          reader_running (reader_step fl inc y') = false <-> inc = DecodeError \/ inc = ReadError)
    /\ (forall rest, reader_loop fl (Frame m :: rest) y = reader_loop fl rest y').
Proof.
  intros fl y details reason Hrun Hpend m sigs y'.
  assert (Hdef : y' = reader_step fl (Frame m) y) by reflexivity.
  assert (Hy' : y' = dispatch_effects fl m sigs y).
  { subst y' m sigs. unfold reader_step.
    replace (reader_waits fl y) with false by (unfold reader_waits; rewrite Hpend; destruct fl; reflexivity).
    rewrite Hrun. cbn [process_incoming_message]. rewrite update_state_same. reflexivity. }
  clearbody y'.
  assert (Hr' : reader_running y' = true).
  { rewrite Hy'. destruct (dispatch_effects_frame fl m sigs y) as (_ & _ & _ & _ & _ & ->).
    exact Hrun. }
  split; [|split; [|split; [|split; [|split; [|split; [|split; [|split; [|split; [|split]]]]]]]]].
  11: { intros rest. rewrite Hdef. reflexivity. }
  10: { intros inc Hp. unfold reader_step.
        replace (reader_waits fl y') with false by (unfold reader_waits; rewrite Hp; destruct fl; reflexivity).
        rewrite Hr'. destruct inc as [m'| |]; simpl.
        - destruct (process_incoming_message m' (state y')) as [s' effs].
          destruct (dispatch_effects_frame fl m' effs (update_state (fun _ => s') y'))
            as (_ & _ & _ & _ & _ & ->).
          simpl. rewrite Hr'. split; [discriminate|]. intros [H|H]; discriminate.
        - split; auto.
        - split; auto. }
  9: { intros inc Hp. destruct fl.
       - exfalso. apply Hp. rewrite Hy', dispatch_sync, fold_apply_effect_pending. exact Hpend.
       - unfold reader_step, reader_waits.
         destruct (reader_pending y'); [reflexivity|]. contradiction. }
  6: exact Hr'.
  all: clear Hdef Hr'.
  all: subst m sigs y'.
  all: destruct y as [s ig nc cs cr dl w ts gc ec rr rp]; simpl in Hrun, Hpend |- *; subst rr rp.
  all: destruct fl; destruct (goodbye_sent s) eqn:Hgs; destruct gc as [|gc]; destruct ec as [|ec]; rewrite ?Hgs; cbn.
  all: try reflexivity.
  (* the signals sent and those left waiting *)
  all: try match goal with
    | |- exists sent waiting, ?L = _ /\ _ =>
        first [ exists L, []; solve [signals_split]
              | exists [SignalGoodbye], [SignalExit]; solve [signals_split]
              | exists [], L; solve [signals_split] ]
    end.
  (* sync, or both slots free *)
  all: first [ intros _; split; [lia | split; [lia | reflexivity]]
             | intros [Hf|[Hf1 Hf2]]; discriminate ].
Qed.

Lemma goodbye_signals_reader_continues_witness :
  let y := goodbye_answered_async.1 in
  reader_running y = true /\ reader_pending y = None /\
  let m := Goodbye ∅ "wamp.close.goodbye_and_out" in
  let sigs := (if goodbye_sent (state y) then [SignalGoodbye] else []) ++ [SignalExit] in
  let y' := reader_step Async (Frame m) y in
  state y' = state y /\ chans y' = chans y /\ delivered y' = delivered y
  /\ wire y' = wire y /\ tasks y' = tasks y /\ reader_running y' = true
  /\ (exists sent waiting,
        sigs = sent ++ waiting
        /\ goodbye_chan y' = (goodbye_chan y + length (List.filter is_goodbye_signal sent))%nat
        /\ exit_chan y' = (exit_chan y + length (List.filter is_exit_signal sent))%nat
        /\ reader_pending y' = match waiting with [] => None | _ => Some (m, waiting) end
        /\ (forall e rest, waiting = e :: rest -> Async = Async /\ effect_fits Async y' e = false)
        /\ (forall z : Sys,
              reader_running z = true -> reader_pending z = Some (m, waiting) ->
              goodbye_chan z = 0%nat -> exit_chan z = 0%nat ->
              let z' := reader_send Async z in
              reader_pending z' = None
              /\ goodbye_chan z' = length (List.filter is_goodbye_signal waiting)
              /\ exit_chan z' = length (List.filter is_exit_signal waiting)
              /\ state z' = state z /\ chans z' = chans z /\ delivered z' = delivered z
              /\ wire z' = wire z /\ tasks z' = tasks z /\ reader_running z' = true))
  /\ ((Async = Sync \/ (goodbye_chan y = 0%nat /\ exit_chan y = 0%nat)) ->
      goodbye_chan y' = (goodbye_chan y + (if goodbye_sent (state y) then 1 else 0))%nat
      /\ exit_chan y' = S (exit_chan y) /\ reader_pending y' = None)
  /\ (forall inc, reader_pending y' <> None -> reader_step Async inc y' = y')
  /\ (forall inc, reader_pending y' = None ->
        reader_running (reader_step Async inc y') = false <-> inc = DecodeError \/ inc = ReadError)
  /\ (forall rest, reader_loop Async (Frame m :: rest) y = reader_loop Async rest y').
Proof.
  intros y.
  assert (H1 : reader_running y = true) by (vm_compute; reflexivity).
  assert (H2 : reader_pending y = None) by (vm_compute; reflexivity).
  split; [exact H1|]. split; [exact H2|].
  exact (goodbye_signals_reader_continues Async y ∅ "wamp.close.goodbye_and_out" H1 H2).
Defined.

(** C5 (counterexample): after a GOODBYE the reader still reads and
    dispatches the next frame: a RESULT that follows it is delivered to
    the waiting [call]. *)
Lemma goodbye_then_result_dispatched :
  let y := reader_loop Sync
             [Frame (Goodbye ∅ "wamp.close.normal"); Frame (Result_ 1 ∅ (Some [VInt 1]) None)]
             (fst (call_sent Sync)) in
  exit_chan y = 1%nat
  /\ reader_running y = true
  /\ chan_buf y 0 = [RCall (mkCallResponse (Some [VInt 1]) None None)].
Proof. vm_compute. repeat split. Qed.

(** C6 (counterexample): an INVOCATION whose handler panics gets no
    ERROR(INVOCATION, "wamp.error.runtime_error"): after the reader has
    dispatched it and the handler task has run, the wire still holds only
    the REGISTER frame. *)
Lemma handler_panic_no_error_frame :
  let y2 := fst (sys_step Sync (ATask 0 true)
                   (reader_step Sync (Frame (Invocation 7 42 ∅ None None)) failing_registered, [])) in
  wire y2 = [Register 1 ∅ "io.xconn.fail"]
  /\ ~ (exists d a k, In (ErrorMsg MESSAGE_TYPE_INVOCATION 7 d "wamp.error.runtime_error" a k)
                        (wire y2)).
Proof.
  assert (Hw : wire (fst (sys_step Sync (ATask 0 true)
                 (reader_step Sync (Frame (Invocation 7 42 ∅ None None)) failing_registered, [])))
               = [Register 1 ∅ "io.xconn.fail"]) by (vm_compute; reflexivity).
  intros y2. change (wire y2 = [Register 1 ∅ "io.xconn.fail"]) in Hw.
  rewrite Hw. split; [reflexivity|].
  intros (d & a & k & [H | []]). discriminate.
Qed.

(** C7 (failing input): a frame [WAMP, length 3, "hi!"] whose payload the
    network delivers in two segments, [00 00 00 03 'h'] then ['i' '!'].
    [RawSocketPeer::read] makes one short [read] for the payload and
    returns ['h' 0 0], leaving "i!" in the stream; reading exactly the
    declared length, as the spec asks, returns "hi!".  A header split
    across segments makes it parse a wrong length (here 0). *)
Theorem rawsocket_read_short_payload :
  RawSocket.read [[Byte.x00; Byte.x00; Byte.x00; Byte.x03; Byte.x68]; [Byte.x69; Byte.x21]]
  = (Some [Byte.x68; Byte.x00; Byte.x00], [[Byte.x69; Byte.x21]])
  /\ RawSocket.spec_read
       [[Byte.x00; Byte.x00; Byte.x00; Byte.x03; Byte.x68]; [Byte.x69; Byte.x21]]
     = Some ([Byte.x68; Byte.x69; Byte.x21], [[]])
  /\ RawSocket.read [[Byte.x00; Byte.x00]; [Byte.x00; Byte.x03; Byte.x68; Byte.x69; Byte.x21]]
     = (Some [], [[Byte.x00; Byte.x03; Byte.x68; Byte.x69; Byte.x21]]).
Proof. repeat split; reflexivity. Qed.

(** ** Invariants of the whole system *)

Lemma run_app fl (a1 a2 : list Action) c : run fl (a1 ++ a2) c = run fl a2 (run fl a1 c).
Proof. unfold run. apply fold_left_app. Qed.

Lemma run_invariant (P : Sys * list Thread -> Prop) fl :
  (forall a c, P c -> P (sys_step fl a c)) ->
  forall acts c, P c -> P (run fl acts c).
Proof.
  intros Hstep acts. unfold run.
  induction acts as [|a acts IH]; intros c Hc; simpl; [exact Hc|].
  apply IH, Hstep, Hc.
Qed.

Lemma reachable_invariant (P : Sys * list Thread -> Prop) fl :
  (forall a c, P c -> P (sys_step fl a c)) ->
  (forall ops, P (init_sys, map Start ops)) ->
  forall c, reachable fl c -> P c.
Proof.
  intros Hstep Hinit c (ops & acts & ->). apply run_invariant; auto.
Qed.

Lemma recv_head c (y : Sys) r y' :
  recv c y = Received r y' -> In r (chan_buf y c).
Proof.
  unfold recv. destruct (chan_buf y c) as [|r0 rest].
  - destruct (sender_alive (state y) c); discriminate.
  - intros [= <- _]. left. reflexivity.
Qed.

Lemma recv_frame c (y : Sys) r y' :
  recv c y = Received r y' ->
  exists rest, chan_buf y c = r :: rest /\ y' = set_chans (<[c := rest]> (chans y)) y.
Proof.
  unfold recv. destruct (chan_buf y c) as [|r0 rest].
  - destruct (sender_alive (state y) c); discriminate.
  - intros [= <- <-]. exists rest. auto.
Qed.

(** *** Acknowledged publications *)

Lemma thread_tagged_grow (y y' : Sys) t :
  (forall c r, chan_req y !! c = Some r -> chan_req y' !! c = Some r) ->
  thread_tagged y t -> thread_tagged y' t.
Proof.
  intros E. destruct t as [| m k | | | | | | |]; simpl; auto.
  destruct k; simpl; auto.
Qed.

Lemma publish_inv_transfer (y y' : Sys) ths :
  chan_req y' = chan_req y -> next_chan y' = next_chan y -> chans y' = chans y ->
  (forall x, In x (delivered y) -> In x (delivered y')) ->
  (forall rid c, publish_requests (state y') !! rid = Some c ->
                 publish_requests (state y) !! rid = Some c) ->
  publish_inv y ths -> publish_inv y' ths.
Proof.
  intros Ec En Ech Ed Ep (Hb & He & Ht & Hf). repeat split.
  - intros c Hc. rewrite En. apply Hb. rewrite <- Ec. exact Hc.
  - intros c p Hin. unfold chan_buf in Hin. rewrite Ech in Hin.
    destruct (He c p Hin) as (m & rid & H1 & H2 & H3).
    exists m, rid. rewrite Ec. auto.
  - intros rid c H. rewrite Ec. apply Ht, Ep, H.
  - eapply Forall_impl; [exact Hf|]. intros t. apply thread_tagged_grow.
    intros c r. rewrite Ec. auto.
Qed.

Ltac publish_transfer H :=
  match type of H with
  | publish_inv ?y _ =>
      apply (publish_inv_transfer y);
      [ reflexivity | reflexivity | reflexivity | solve [simpl; auto] | solve [simpl; auto]
      | exact H ]
  end.

Lemma publish_inv_update_state f (y : Sys) ths :
  (forall rid c, publish_requests (f (state y)) !! rid = Some c ->
                 publish_requests (state y) !! rid = Some c) ->
  publish_inv y ths -> publish_inv (update_state f y) ths.
Proof.
  intros Hp Hinv. apply (publish_inv_transfer y);
    [ reflexivity | reflexivity | reflexivity | simpl; auto | exact Hp | exact Hinv ].
Qed.

Lemma publish_inv_new_channel rid (y : Sys) c y' ths :
  new_channel rid y = (c, y') -> publish_inv y ths ->
  publish_inv y' ths /\ chan_req y' !! c = Some rid.
Proof.
  unfold new_channel. intros [= <- <-] (Hb & He & Ht & Hf).
  assert (Hlt : forall c' r, chan_req y !! c' = Some r -> (c' < next_chan y)%nat).
  { intros c' r E. apply Hb. exists r. exact E. }
  assert (Hgrow : forall c' r, chan_req y !! c' = Some r ->
            <[next_chan y := rid]> (chan_req y) !! c' = Some r).
  { intros c' r E. rewrite lookup_insert_ne; [exact E|].
    apply Hlt in E. lia. }
  split; [| simpl; apply lookup_insert_eq].
  unfold publish_inv, chan_req_bounded, publish_buffers_explained, publish_chans_tagged.
  repeat split; simpl.
  - intros c' Hc'. destruct (decide (c' = next_chan y)) as [->|Hne]; [simpl; lia|].
    rewrite lookup_insert_ne in Hc' by lia. apply Hb in Hc'. simpl. lia.
  - intros c' p Hin. unfold chan_buf in Hin. simpl in Hin.
    destruct (decide (c' = next_chan y)) as [->|Hne].
    + rewrite lookup_insert_eq in Hin. simpl in Hin. contradiction.
    + rewrite lookup_insert_ne in Hin by lia.
      destruct (He c' p Hin) as (m & r & H1 & H2 & H3).
      exists m, r. rewrite lookup_insert_ne by lia. auto.
  - intros r c' H. apply Hgrow, Ht, H.
  - eapply Forall_impl; [exact Hf|]. intros t. apply thread_tagged_grow. exact Hgrow.
Qed.

Lemma publish_inv_insert_publish rid c (y : Sys) ths :
  chan_req y !! c = Some rid -> publish_inv y ths ->
  publish_inv (update_state (insert_publish rid c) y) ths.
Proof.
  intros Hc (Hb & He & Ht & Hf). repeat split; auto.
  intros r c' H. simpl in H. apply lookup_insert_Some in H as [[<- <-]|[_ H]].
  - exact Hc.
  - apply Ht, H.
Qed.

Lemma publish_inv_recv c (y : Sys) r y' ths :
  recv c y = Received r y' -> publish_inv y ths -> publish_inv y' ths.
Proof.
  intros Hr. apply recv_frame in Hr as (rest & Hbuf & ->).
  intros (Hb & He & Ht & Hf). repeat split; auto.
  intros c' p Hin. unfold chan_buf in Hin. simpl in Hin.
  destruct (decide (c' = c)) as [->|Hne].
  - rewrite lookup_insert_eq in Hin. simpl in Hin.
    apply He. rewrite Hbuf. right. exact Hin.
  - rewrite lookup_insert_ne in Hin by lia. apply He, Hin.
Qed.

Lemma dispatch_publish m (s s' : State) effs :
  process_incoming_message m s = (s', effs) ->
  (forall rid c, publish_requests s' !! rid = Some c -> publish_requests s !! rid = Some c)
  /\ (forall c p, In (Deliver c (RPublish p)) effs ->
        exists rid, publish_requests s !! rid = Some c /\ publish_reply_frame m rid).
Proof.
  intros H. destruct m; cbn [process_incoming_message] in H;
    repeat case_match; simplify_eq; split; intros * Hx; simpl in *;
    try exact Hx;
    try (apply lookup_delete_Some in Hx as [_ Hx]; exact Hx);
    repeat match type of Hx with
    | _ \/ _ => destruct Hx as [Hx|Hx]
    | False => contradiction
    | _ = _ => discriminate Hx
    end.
  all: injection Hx as <- <-; eexists; split; [eassumption|].
  all: first
    [ left; eexists; reflexivity
    | right;
      match goal with E : Z.eqb ?t MESSAGE_TYPE_PUBLISH = true |- _ =>
        apply Z.eqb_eq in E; subst t end;
      do 4 eexists; reflexivity ].
Qed.

Lemma publish_inv_apply_effect m (y : Sys) e ths :
  (forall c p, e = Deliver c (RPublish p) ->
     exists rid, chan_req y !! c = Some rid /\ publish_reply_frame m rid) ->
  publish_inv y ths -> publish_inv (apply_effect m y e) ths.
Proof.
  intros Hd Hinv. destruct e as [c r | | | |]; simpl;
    try (publish_transfer Hinv).
  destruct Hinv as (Hb & He & Ht & Hf). repeat split; auto.
  intros c' p Hin. unfold chan_buf in Hin. simpl in Hin.
  destruct (decide (c' = c)) as [->|Hne].
  - rewrite lookup_insert_eq in Hin. simpl in Hin.
    apply in_app_or in Hin as [Hin|[Hr|[]]].
    + destruct (He c p Hin) as (m' & rid & H1 & H2 & H3).
      exists m', rid. simpl. rewrite in_app_iff. auto.
    + subst r. destruct (Hd c p eq_refl) as (rid & H1 & H2).
      exists m, rid. simpl. rewrite in_app_iff. simpl. auto.
  - rewrite lookup_insert_ne in Hin by lia.
    destruct (He c' p Hin) as (m' & rid & H1 & H2 & H3).
    exists m', rid. simpl. rewrite in_app_iff. auto.
Qed.

Lemma publish_inv_fold m effs (y : Sys) ths :
  (forall c p, In (Deliver c (RPublish p)) effs ->
     exists rid, chan_req y !! c = Some rid /\ publish_reply_frame m rid) ->
  publish_inv y ths -> publish_inv (fold_left (apply_effect m) effs y) ths.
Proof.
  revert y. induction effs as [|e effs IH]; intros y Hd Hinv; simpl; [exact Hinv|].
  apply IH.
  - intros c p Hin. replace (chan_req (apply_effect m y e)) with (chan_req y)
      by (destruct e; reflexivity).
    apply (Hd c p). right. exact Hin.
  - apply publish_inv_apply_effect; [|exact Hinv].
    intros c p ->. apply (Hd c p). left. reflexivity.
Qed.

Lemma publish_inv_dispatch fl m effs (y : Sys) ths :
  (forall c p, In (Deliver c (RPublish p)) effs ->
     exists rid, chan_req y !! c = Some rid /\ publish_reply_frame m rid) ->
  publish_inv y ths -> publish_inv (dispatch_effects fl m effs y) ths.
Proof.
  revert y. induction effs as [|e effs IH]; intros y Hd Hinv; simpl; [exact Hinv|].
  destruct (effect_fits fl y e); [|publish_transfer Hinv].
  apply IH.
  - intros c p Hin. replace (chan_req (apply_effect m y e)) with (chan_req y)
      by (destruct e; reflexivity).
    apply (Hd c p). right. exact Hin.
  - apply publish_inv_apply_effect; [|exact Hinv].
    intros c p ->. apply (Hd c p). left. reflexivity.
Qed.

Lemma publish_inv_reader fl inc (y : Sys) ths :
  publish_inv y ths -> publish_inv (reader_step fl inc y) ths.
Proof.
  intros Hinv.
  destruct (reader_step_cases fl inc y)
    as [->|[[_ ->]|(m & s' & effs & _ & _ & _ & Hp & ->)]];
    [exact Hinv | publish_transfer Hinv |].
  apply dispatch_publish in Hp as [Hsub Hdel].
  apply publish_inv_dispatch.
  - intros c p Hin. destruct (Hdel c p Hin) as (rid & H1 & H2).
    exists rid. split; [|exact H2]. destruct Hinv as (_ & _ & Ht & _). apply Ht, H1.
  - apply publish_inv_update_state; [exact Hsub | exact Hinv].
Qed.

Lemma publish_inv_send fl (y : Sys) ths :
  pending_signals y -> publish_inv y ths -> publish_inv (reader_send fl y) ths.
Proof.
  intros Hps Hinv.
  destruct (reader_send_cases fl y) as [->|(m & effs & _ & Hp & ->)]; [exact Hinv|].
  unfold pending_signals in Hps. rewrite Hp in Hps.
  apply publish_inv_dispatch.
  - intros c p Hin. rewrite List.Forall_forall in Hps. specialize (Hps _ Hin). discriminate.
  - publish_transfer Hinv.
Qed.

Lemma thread_step_pending fl ok t (y : Sys) y' t' :
  thread_step fl ok t y = Some (y', t') -> reader_pending y' = reader_pending y.
Proof.
  intros H. destruct t; cbn [thread_step] in H; try discriminate.
  1: { injection H as H. unfold start_op in H.
        destruct o; simpl in H; repeat case_match; simplify_eq; reflexivity. }
  1: { injection H as H. unfold write_step in H. destruct ok, k; simplify_eq; reflexivity. }
  all: unfold await_step in H; repeat case_match; simplify_eq;
       try match goal with E : recv _ _ = Received _ _ |- _ =>
             apply recv_frame in E as (? & _ & ->) end;
       reflexivity.
Qed.

Lemma run_task_pending t ok (y : Sys) : reader_pending (run_task t ok y) = reader_pending y.
Proof. destruct t as [rid cb inv|cb ev]; simpl; [|reflexivity]. destruct (cb inv), ok; reflexivity. Qed.

Lemma pending_signals_dispatch fl m (s s' : State) effs (y : Sys) :
  process_incoming_message m s = (s', effs) ->
  pending_signals y -> pending_signals (dispatch_effects fl m effs y).
Proof.
  intros Hp Hy. destruct (dispatch_effects_split fl m effs y) as (pre & post & -> & Hd & Hf).
  rewrite Hd. destruct post as [|e rest].
  - unfold pending_signals. rewrite fold_apply_effect_pending. exact Hy.
  - unfold pending_signals. simpl.
    destruct (effect_fits_signal _ _ _ (Hf e rest eq_refl)) as [_ He].
    apply dispatch_signals in Hp as [Hn|Hs]; apply Forall_app in Hn || apply Forall_app in Hs.
    + destruct Hn as [_ Hn]. inversion Hn; congruence.
    + destruct Hs as [_ Hs]. exact Hs.
Qed.

Lemma pending_signals_step fl a c : pending_signals c.1 -> pending_signals (sys_step fl a c).1.
Proof.
  destruct c as [y ths]. simpl. intros Hps. destruct a as [i ok|inc|i ok|].
  - destruct (ths !! i) as [t|]; [|exact Hps].
    destruct (thread_step fl ok t y) as [[y' t']|] eqn:Hs; [|exact Hps].
    unfold pending_signals. simpl. rewrite (thread_step_pending _ _ _ _ _ _ Hs). exact Hps.
  - simpl. destruct (reader_step_cases fl inc y)
      as [->|[[_ ->]|(m & s' & effs & _ & _ & _ & Hp & ->)]]; [exact Hps | exact Hps |].
    apply (pending_signals_dispatch fl m _ _ _ _ Hp). exact Hps.
  - destruct (tasks y !! i) as [t|]; [|exact Hps]. simpl.
    unfold pending_signals. rewrite run_task_pending. exact Hps.
  - simpl. destruct (reader_send_cases fl y) as [->|(m & effs & _ & Hp & ->)]; [exact Hps|].
    destruct (dispatch_effects_split fl m effs (set_reader_pending None y))
      as (pre & post & -> & Hd & _).
    unfold pending_signals in *. rewrite Hp in Hps. rewrite Hd.
    destruct post as [|e rest].
    + rewrite fold_apply_effect_pending. exact I.
    + simpl. apply Forall_app in Hps as [_ Hps]. exact Hps.
Qed.

Lemma publish_inv_start o ok (y : Sys) y' t' ths :
  publish_inv y ths -> start_op o ok y = (y', t') ->
  publish_inv y' ths /\ thread_tagged y' t'.
Proof.
  intros Hinv. unfold start_op.
  assert (Hid : forall i, publish_inv (set_idgen i y) ths)
    by (intros i; publish_transfer Hinv).
  destruct o; cbv zeta.
  2: destruct (acknowledge (pub_options req)).
  all: try (destruct (new_channel _ _) as [sender y2] eqn:Hn;
            apply publish_inv_new_channel with (ths := ths) in Hn as [Hinv2 Hc];
            [| apply Hid]).
  all: destruct ok; intros [= <- <-]; simpl; try (split; [|exact I]).
  all: try exact Hinv2; try apply Hid; try exact Hinv.
  all: try (apply publish_inv_update_state; [simpl; auto | assumption]).
  split; [apply publish_inv_insert_publish; assumption | exact Hc].
Qed.

Lemma publish_inv_write m k ok (y : Sys) y' t' ths :
  publish_inv y ths -> thread_tagged y (Writing m k) -> write_step m k ok y = (y', t') ->
  publish_inv y' ths /\ thread_tagged y' t'.
Proof.
  intros Hinv Ht. unfold write_step.
  destruct ok, k; intros [= <- <-]; simpl in *; (split; [|auto]).
  all: try publish_transfer Hinv.
  all: apply publish_inv_update_state; [|exact Hinv]; simpl; auto.
  intros r c0 H. apply lookup_delete_Some in H as [_ H]. exact H.
Qed.

Lemma publish_inv_await fl t (y : Sys) y' t' ths :
  publish_inv y ths -> thread_tagged y t -> await_step fl t y = Some (y', t') ->
  publish_inv y' ths /\ thread_tagged y' t'.
Proof.
  intros Hinv Ht. unfold await_step.
  destruct t; try discriminate.
  all: repeat case_match; intros [= <- <-]; (split; [|simpl; auto]).
  all: try exact Hinv.
  all: try (publish_transfer Hinv).
  all: try (eapply publish_inv_recv; eassumption).
  all: apply publish_inv_update_state; [simpl; auto|].
  all: eapply publish_inv_recv; eassumption.
Qed.

Lemma publish_inv_step fl a c :
  pending_signals c.1 -> publish_inv c.1 c.2 -> publish_inv (sys_step fl a c).1 (sys_step fl a c).2.
Proof.
  destruct c as [y ths]. simpl. intros Hps Hinv. destruct a as [i ok|inc|i ok|].
  - destruct (ths !! i) as [t|] eqn:Hi; [|exact Hinv].
    assert (Ht : thread_tagged y t)
      by (destruct Hinv as (_ & _ & _ & Hf); eapply Forall_lookup_1; eassumption).
    destruct (thread_step fl ok t y) as [[y' t']|] eqn:Hs; [|exact Hinv].
    assert (H : publish_inv y' ths /\ thread_tagged y' t').
    { destruct t; cbn [thread_step] in Hs; try discriminate;
        try (injection Hs as Hs; eapply publish_inv_start; eassumption);
        try (injection Hs as Hs; eapply publish_inv_write; eassumption);
        eapply publish_inv_await; eassumption. }
    destruct H as [(Hb & He & Hp & Hf) Ht'].
    repeat split; auto. apply Forall_insert; assumption.
  - simpl. apply publish_inv_reader, Hinv.
  - destruct (tasks y !! i) as [t|]; [|exact Hinv]. simpl.
    assert (H2 : publish_inv (set_tasks (delete i (tasks y)) y) ths)
      by (publish_transfer Hinv).
    destruct t as [rid cb inv|cb ev]; simpl; [|exact H2].
    destruct (cb inv), ok; exact H2.
  - apply publish_inv_send; assumption.
Qed.

Lemma publish_inv_reachable fl (y : Sys) ths :
  reachable fl (y, ths) -> publish_inv y ths.
Proof.
  intros H. apply (reachable_invariant (fun c => pending_signals c.1 /\ publish_inv c.1 c.2) fl)
    in H; [exact (proj2 H) | |].
  - intros a c [Hps Hinv]. split; [apply pending_signals_step, Hps | apply publish_inv_step; assumption].
  - intros ops. simpl. split; [exact I|]. repeat split.
    + intros c [r Hc]. simpl in Hc. rewrite lookup_empty in Hc. discriminate.
    + intros c p Hin. unfold chan_buf in Hin. simpl in Hin.
      rewrite lookup_empty in Hin. contradiction.
    + intros rid c Hc. simpl in Hc. rewrite lookup_empty in Hc. discriminate.
    + induction ops as [|o ops IH]; simpl; [constructor | constructor; [exact I | exact IH]].
Qed.

(** C4 (amended): a publish whose options do not map "acknowledge" to
    [Bool(true)] leaves the pending maps alone and, once its write
    succeeds, returns [Ok(None)] at once; an acknowledged publish inserts
    its pending entry before anything is written, and if the write fails
    it removes the entry and returns an error with no reply; otherwise it
    returns [Ok(Some response)] only with a response that the reader
    delivered to its channel for a PUBLISHED or ERROR(PUBLISH) frame
    carrying its request id. *)
Theorem publish_acknowledge_contract (fl : Flavour) (req : PublishRequest) :
  (acknowledge (pub_options req) = false ->
   forall (y : Sys) (ok : bool),
     state (fst (start_op (OpPublish req) ok y)) = state y
     /\ (ok = true ->
         exists m, snd (start_op (OpPublish req) ok y) = Writing m AfterPublishNoAck
           /\ forall (y1 : Sys),
                write_step m AfterPublishNoAck true y1 = (write_frame m y1, Done (PublishOk None))))
  /\ (acknowledge (pub_options req) = true ->
      forall (y : Sys),
        exists (rid : Z) (c : Sender) (m : Message),
          snd (start_op (OpPublish req) true y) = Writing m (AfterPublishAck rid c)
          /\ publish_requests (state (fst (start_op (OpPublish req) true y)))
             = <[rid := c]> (publish_requests (state y))
          /\ wire (fst (start_op (OpPublish req) true y)) = wire y
          /\ write_step m (AfterPublishAck rid c) false (fst (start_op (OpPublish req) true y))
             = (update_state (remove_publish rid) (fst (start_op (OpPublish req) true y)),
                Done (Err "failed to send message")))
  /\ (forall (y : Sys) (ths : list Thread) (i : nat) (rid : Z) (c : Sender) (ok : bool)
             (y' : Sys) (p : PublishResponse),
        reachable fl (y, ths) ->
        ths !! i = Some (AwaitPublish rid c) ->
        thread_step fl ok (AwaitPublish rid c) y = Some (y', Done (PublishOk (Some p))) ->
        exists m, publish_reply_frame m rid /\ In (c, RPublish p, m) (delivered y)).
Proof.
  split; [|split].
  - intros Hack y ok. unfold start_op. cbv zeta. rewrite Hack.
    destruct ok; simpl; (split; [reflexivity|]); intros Hok; [|discriminate].
    eexists. split; [reflexivity|]. intros y1. reflexivity.
  - intros Hack y. unfold start_op. cbv zeta. rewrite Hack. simpl.
    do 3 eexists. repeat split; reflexivity.
  - intros y ths i rid c ok y' p Hr Hi Hs.
    apply publish_inv_reachable in Hr as (_ & He & _ & Hf).
    pose proof (Forall_lookup_1 _ _ _ _ Hf Hi) as Ht. simpl in Ht.
    cbn [thread_step await_step] in Hs.
    destruct (recv c y) as [r y''| |] eqn:Hrecv; try discriminate.
    destruct r; try discriminate. injection Hs as _ ->.
    apply recv_head in Hrecv.
    destruct (He c p Hrecv) as (m & rid' & H1 & H2 & H3).
    rewrite Ht in H1. injection H1 as <-. exists m. auto.
Qed.

Lemma publish_acknowledge_contract_witness :
  reachable Sync ack_publish_answered
  /\ ack_publish_answered.2 !! 0%nat = Some (AwaitPublish 1 0)
  /\ thread_step Sync true (AwaitPublish 1 0) ack_publish_answered.1
     = Some (ack_publish_returned, Done (PublishOk (Some (mkPublishResponse None))))
  /\ (exists m, publish_reply_frame m 1
        /\ In (0%nat, RPublish (mkPublishResponse None), m) (delivered ack_publish_answered.1))
  /\ (exists (rid : Z) (c : Sender) (m : Message),
        snd (start_op (OpPublish ack_publish) true init_sys) = Writing m (AfterPublishAck rid c)
        /\ publish_requests (state (fst (start_op (OpPublish ack_publish) true init_sys)))
           = <[rid := c]> (publish_requests (state init_sys))
        /\ wire (fst (start_op (OpPublish ack_publish) true init_sys)) = wire init_sys
        /\ write_step m (AfterPublishAck rid c) false
             (fst (start_op (OpPublish ack_publish) true init_sys))
           = (update_state (remove_publish rid)
                (fst (start_op (OpPublish ack_publish) true init_sys)),
              Done (Err "failed to send message"))).
Proof.
  assert (Hr : reachable Sync (ack_publish_answered.1, ack_publish_answered.2)).
  { exists [OpPublish ack_publish], [AThread 0 true; AThread 0 true; AReader (Frame (Published 1 5))].
    vm_compute. reflexivity. }
  assert (Hi : ack_publish_answered.2 !! 0%nat = Some (AwaitPublish 1 0))
    by (vm_compute; reflexivity).
  assert (Hs : thread_step Sync true (AwaitPublish 1 0) ack_publish_answered.1
               = Some (ack_publish_returned, Done (PublishOk (Some (mkPublishResponse None)))))
    by (vm_compute; reflexivity).
  split; [exact Hr|]. split; [exact Hi|]. split; [exact Hs|]. split.
  - exact (proj2 (proj2 (publish_acknowledge_contract Sync ack_publish))
             ack_publish_answered.1 ack_publish_answered.2 0%nat 1 0%nat true
             ack_publish_returned _ Hr Hi Hs).
  - exact (proj1 (proj2 (publish_acknowledge_contract Sync ack_publish)) eq_refl init_sys).
Defined.

(** C4 (counterexample): an acknowledged publish whose write fails
    returns an error although no PUBLISHED or ERROR(PUBLISH) reply was
    ever delivered (nothing was even written). *)
Lemma ack_publish_write_failure_no_reply :
  let cfg := run Sync [AThread 0 true; AThread 0 false] (init_sys, [Start (OpPublish ack_publish)]) in
  cfg.2 = [Done (Err "failed to send message")] /\ delivered cfg.1 = [] /\ wire cfg.1 = []
  /\ publish_requests (state cfg.1) = ∅.
Proof. vm_compute. repeat split. Qed.

(** *** No unregistration *)

Lemma dispatch_frame m (s s' : State) effs :
  process_incoming_message m s = (s', effs) ->
  registrations s' = registrations s /\ subscriptions s' = subscriptions s
  /\ (unregister_requests s = ∅ -> unregister_requests s' = ∅)
  /\ (unsubscribe_requests s = ∅ -> unsubscribe_requests s' = ∅).
Proof.
  intros H. destruct m; cbn [process_incoming_message] in H;
    repeat case_match; simplify_eq; simpl; repeat split; auto;
    intros E; rewrite E, lookup_empty in *; discriminate.
Qed.

Lemma reader_step_frame fl inc (y : Sys) y' :
  reader_step fl inc y = y' ->
  registrations (state y') = registrations (state y)
  /\ subscriptions (state y') = subscriptions (state y)
  /\ wire y' = wire y
  /\ (unregister_requests (state y) = ∅ -> unregister_requests (state y') = ∅)
  /\ (unsubscribe_requests (state y) = ∅ -> unsubscribe_requests (state y') = ∅).
Proof.
  intros <-.
  destruct (reader_step_cases fl inc y)
    as [->|[[_ ->]|(m & s' & effs & _ & _ & _ & Hp & ->)]]; [auto | simpl; auto |].
  destruct (dispatch_effects_frame fl m effs (update_state (fun _ => s') y)) as (H1 & H2 & _).
  rewrite H1, H2. simpl. apply dispatch_frame in Hp as (? & ? & ? & ?). auto.
Qed.

Lemma reader_send_frame fl (y : Sys) :
  let y' := reader_send fl y in
  state y' = state y /\ wire y' = wire y /\ chan_req y' = chan_req y
  /\ next_chan y' = next_chan y /\ idgen y' = idgen y /\ reader_running y' = reader_running y.
Proof.
  cbv zeta. destruct (reader_send_cases fl y) as [->|(m & effs & _ & _ & ->)]; [auto 7|].
  destruct (dispatch_effects_frame fl m effs (set_reader_pending None y)) as (H1 & H2 & H3 & H4 & H5 & H6).
  rewrite H1, H2, H3, H4, H5, H6. auto 7.
Qed.

Lemma thread_step_frame fl ok t (y : Sys) y' t' :
  thread_step fl ok t y = Some (y', t') ->
  unregister_requests (state y') = unregister_requests (state y)
  /\ unsubscribe_requests (state y') = unsubscribe_requests (state y)
  /\ (wire y' = wire y \/ exists m k, t = Writing m k /\ wire y' = wire y ++ [m])
  /\ thread_writes_no_unregister t'
  /\ (forall k, is_Some (registrations (state y) !! k) -> is_Some (registrations (state y') !! k))
  /\ (forall k, is_Some (subscriptions (state y) !! k) -> is_Some (subscriptions (state y') !! k)).
Proof.
  intros H. destruct t; cbn [thread_step] in H; try discriminate.
  1: { injection H as H. unfold start_op in H.
        destruct o; simpl in H; repeat case_match; simplify_eq; simpl; repeat split; auto. }
  1: { injection H as H. unfold write_step in H.
        destruct ok, k; simplify_eq; simpl; repeat split; auto.
        all: right; do 2 eexists; split; reflexivity. }
  all: unfold await_step in H; repeat case_match; simplify_eq;
       try match goal with E : recv _ _ = Received _ _ |- _ =>
             apply recv_frame in E as (? & _ & ->) end;
       simpl; repeat split; auto.
  all: intros ? ?; apply lookup_insert_is_Some'; auto.
Qed.

Lemma run_task_frame t ok (y : Sys) :
  state (run_task t ok y) = state y
  /\ (wire (run_task t ok y) = wire y
      \/ exists rid a k, wire (run_task t ok y) = wire y ++ [Yield rid ∅ a k]).
Proof.
  destruct t as [rid cb inv|cb ev]; simpl; [|auto].
  destruct (cb inv), ok; simpl; auto. split; [reflexivity|]. right. do 3 eexists. reflexivity.
Qed.

Lemma handlers_grow_step fl a (c : Sys * list Thread) :
  (forall k, is_Some (registrations (state c.1) !! k) ->
             is_Some (registrations (state (sys_step fl a c).1) !! k))
  /\ (forall k, is_Some (subscriptions (state c.1) !! k) ->
                is_Some (subscriptions (state (sys_step fl a c).1) !! k)).
Proof.
  destruct c as [y ths]. destruct a as [i ok|inc|i ok|]; simpl.
  - destruct (ths !! i) as [t|]; [|auto].
    destruct (thread_step fl ok t y) as [[y' t']|] eqn:Hs; [|auto].
    apply thread_step_frame in Hs as (_ & _ & _ & _ & H1 & H2). auto.
  - destruct (reader_step_frame fl inc y _ eq_refl) as (H1 & H2 & _).
    rewrite H1, H2. auto.
  - destruct (tasks y !! i) as [t|]; [|auto]. simpl.
    destruct (run_task_frame t ok (set_tasks (delete i (tasks y)) y)) as [Hs _].
    rewrite Hs. auto.
  - destruct (reader_send_frame fl y) as (Hs & _). rewrite Hs. auto.
Qed.

Lemma handlers_grow_run fl acts (c : Sys * list Thread) :
  (forall k, is_Some (registrations (state c.1) !! k) ->
             is_Some (registrations (state (run fl acts c).1) !! k))
  /\ (forall k, is_Some (subscriptions (state c.1) !! k) ->
                is_Some (subscriptions (state (run fl acts c).1) !! k)).
Proof.
  unfold run. revert c. induction acts as [|a acts IH]; intros c; simpl; [auto|].
  destruct (handlers_grow_step fl a c) as [H1 H2].
  destruct (IH (sys_step fl a c)) as [H3 H4]. auto.
Qed.

Lemma unregister_inv_step fl a (c : Sys * list Thread) :
  unregister_inv c.1 c.2 -> unregister_inv (sys_step fl a c).1 (sys_step fl a c).2.
Proof.
  destruct c as [y ths]. simpl. intros (Hu & Hs & Hw & Hf).
  destruct a as [i ok|inc|i ok|].
  - destruct (ths !! i) as [t|] eqn:Hi; [|repeat split; auto].
    destruct (thread_step fl ok t y) as [[y' t']|] eqn:Hst; [|repeat split; auto].
    apply thread_step_frame in Hst as (E1 & E2 & Ew & Ht & _).
    simpl. repeat split.
    + rewrite E1. exact Hu.
    + rewrite E2. exact Hs.
    + destruct Ew as [-> | (m & k & -> & ->)]; [exact Hw|].
      apply Forall_app; split; [exact Hw|].
      apply Forall_singleton. exact (Forall_lookup_1 _ _ _ _ Hf Hi).
    + apply Forall_insert; assumption.
  - simpl. destruct (reader_step_frame fl inc y _ eq_refl) as (_ & _ & E & H1 & H2).
    repeat split; auto. rewrite E. exact Hw.
  - destruct (tasks y !! i) as [t|]; [|repeat split; auto]. simpl.
    destruct (run_task_frame t ok (set_tasks (delete i (tasks y)) y)) as [E Ew].
    repeat split; auto; rewrite ?E; auto.
    destruct Ew as [-> | (rid & a & k & ->)]; [exact Hw|].
    apply Forall_app; split; [exact Hw|]. apply Forall_singleton. reflexivity.
  - simpl. destruct (reader_send_frame fl y) as (E1 & E2 & _).
    unfold unregister_inv. rewrite E1, E2. repeat split; assumption.
Qed.

Lemma unregister_inv_reachable fl (y : Sys) ths :
  reachable fl (y, ths) -> unregister_inv y ths.
Proof.
  intros H. apply (reachable_invariant (fun c => unregister_inv c.1 c.2) fl) in H; [exact H | |].
  - intros a c. apply unregister_inv_step.
  - intros ops. simpl. repeat split; [constructor|].
    induction ops as [|o ops IH]; simpl; [constructor | constructor; [exact I | exact IH]].
Qed.

(** C2 (amended): the session has no [unregister] and no [unsubscribe]
    operation (its operations are call, publish, register, subscribe,
    leave and wait_disconnect).  In every reachable configuration the
    unregister and unsubscribe pending maps are empty, no UNREGISTER or
    UNSUBSCRIBE frame has been written and no caller is about to write
    one; and whatever happens next, an id installed in [registrations]
    ([subscriptions]) stays installed. *)
Theorem no_unregister_operation (fl : Flavour) (y : Sys) (ths : list Thread)
    (acts : list Action) :
  reachable fl (y, ths) ->
  unregister_requests (state y) = ∅ /\ unsubscribe_requests (state y) = ∅
  /\ Forall (fun m => is_unregister_or_unsubscribe m = false) (wire y)
  /\ Forall thread_writes_no_unregister ths
  /\ (forall k, is_Some (registrations (state y) !! k) ->
                is_Some (registrations (state (run fl acts (y, ths)).1) !! k))
  /\ (forall k, is_Some (subscriptions (state y) !! k) ->
                is_Some (subscriptions (state (run fl acts (y, ths)).1) !! k)).
Proof.
  intros H. apply unregister_inv_reachable in H as (H1 & H2 & H3 & H4).
  destruct (handlers_grow_run fl acts (y, ths)) as [H5 H6].
  repeat split; assumption.
Qed.

Lemma no_unregister_operation_witness :
  reachable Sync (failing_registered_cfg.1, failing_registered_cfg.2)
  /\ (let y := failing_registered_cfg.1 in
      let ths := failing_registered_cfg.2 in
      let acts := [AReader (Frame (Unregistered 2));
                   AReader (Frame (ErrorMsg MESSAGE_TYPE_UNREGISTER 2 ∅ "wamp.error.no_such_registration" None None))] in
      unregister_requests (state y) = ∅ /\ unsubscribe_requests (state y) = ∅
      /\ Forall (fun m => is_unregister_or_unsubscribe m = false) (wire y)
      /\ Forall thread_writes_no_unregister ths
      /\ (forall k, is_Some (registrations (state y) !! k) ->
                    is_Some (registrations (state (run Sync acts (y, ths)).1) !! k))
      /\ (forall k, is_Some (subscriptions (state y) !! k) ->
                    is_Some (subscriptions (state (run Sync acts (y, ths)).1) !! k))).
Proof.
  assert (Hr : reachable Sync (failing_registered_cfg.1, failing_registered_cfg.2)).
  { exists [OpRegister failing_register], failing_register_acts. vm_compute. reflexivity. }
  split; [exact Hr|].
  exact (no_unregister_operation Sync _ _
           [AReader (Frame (Unregistered 2));
            AReader (Frame (ErrorMsg MESSAGE_TYPE_UNREGISTER 2 ∅ "wamp.error.no_such_registration" None None))]
           Hr).
Defined.

(** C2 (counterexample): in a sync session whose [register] got
    REGISTERED(1, 42), the handler stays under 42 whatever other callers
    run and whatever else happens, and no UNREGISTER or UNSUBSCRIBE frame
    is ever written. *)
Lemma registration_never_removed :
  registrations (state failing_registered) !! 42 = Some panicking_handler
  /\ ~ (exists (ops : list Op) (acts : list Action),
          let y := (run Sync (failing_register_acts ++ acts)
                      (init_sys, map Start (OpRegister failing_register :: ops))).1 in
          registrations (state y) !! 42 = None
          \/ Exists (fun m => is_unregister_or_unsubscribe m = true) (wire y)).
Proof.
  split; [vm_compute; reflexivity|].
  intros (ops & acts & Hy). cbv zeta in Hy. rewrite run_app in Hy.
  set (c0 := run Sync failing_register_acts
               (init_sys, map Start (OpRegister failing_register :: ops))) in Hy.
  assert (E : registrations (state c0.1) !! 42 = Some panicking_handler)
    by (vm_compute; reflexivity).
  destruct Hy as [Hn | Hex].
  - destruct (handlers_grow_run Sync acts c0) as [Hg _].
    specialize (Hg 42 (mk_is_Some _ _ E)). rewrite Hn in Hg.
    destruct Hg as [? Hg]. discriminate.
  - assert (Hr : reachable Sync (run Sync acts c0)).
    { exists (OpRegister failing_register :: ops), (failing_register_acts ++ acts).
      subst c0. rewrite run_app. reflexivity. }
    destruct (run Sync acts c0) as [y ths].
    apply unregister_inv_reachable in Hr as (_ & _ & Hw & _).
    rewrite Forall_forall in Hw. apply Exists_exists in Hex as (m & Hm & Hm').
    simpl in Hm, Hm'. rewrite (Hw m Hm) in Hm'. discriminate.
Qed.

(** *** No ERROR frame from the client *)

Lemma thread_step_no_error fl ok t (y : Sys) y' t' :
  thread_step fl ok t y = Some (y', t') -> thread_writes_no_error t'.
Proof.
  intros H. destruct t; cbn [thread_step] in H; try discriminate.
  1: { injection H as H. unfold start_op in H.
       destruct o; simpl in H; repeat case_match; simplify_eq; simpl; auto. }
  1: { injection H as H. unfold write_step in H. destruct ok, k; simplify_eq; simpl; auto. }
  all: unfold await_step in H; repeat case_match; simplify_eq; simpl; auto.
Qed.

Lemma error_inv_step fl a (c : Sys * list Thread) :
  error_inv c.1 c.2 -> error_inv (sys_step fl a c).1 (sys_step fl a c).2.
Proof.
  destruct c as [y ths]. simpl. intros (Hw & Hf).
  destruct a as [i ok|inc|i ok|].
  - destruct (ths !! i) as [t|] eqn:Hi; [|split; auto].
    destruct (thread_step fl ok t y) as [[y' t']|] eqn:Hst; [|split; auto].
    pose proof (thread_step_no_error _ _ _ _ _ _ Hst) as Ht.
    apply thread_step_frame in Hst as (_ & _ & Ew & _).
    simpl. split.
    + destruct Ew as [-> | (m & k & -> & ->)]; [exact Hw|].
      apply Forall_app; split; [exact Hw|].
      apply Forall_singleton. exact (Forall_lookup_1 _ _ _ _ Hf Hi).
    + apply Forall_insert; assumption.
  - simpl. destruct (reader_step_frame fl inc y _ eq_refl) as (_ & _ & E & _).
    split; [rewrite E; exact Hw | exact Hf].
  - destruct (tasks y !! i) as [t|]; [|split; auto]. simpl.
    destruct (run_task_frame t ok (set_tasks (delete i (tasks y)) y)) as [_ Ew].
    split; [|exact Hf].
    destruct Ew as [-> | (rid & a & k & ->)]; [exact Hw|].
    apply Forall_app; split; [exact Hw|]. apply Forall_singleton. reflexivity.
  - simpl. destruct (reader_send_frame fl y) as (_ & E & _).
    split; [rewrite E; exact Hw | exact Hf].
Qed.

Lemma error_inv_reachable fl (y : Sys) ths :
  reachable fl (y, ths) -> error_inv y ths.
Proof.
  intros H. apply (reachable_invariant (fun c => error_inv c.1 c.2) fl) in H; [exact H | |].
  - intros a c. apply error_inv_step.
  - intros ops. simpl. split; [constructor|].
    induction ops as [|o ops IH]; simpl; [constructor | constructor; [exact I | exact IH]].
Qed.

(** C6 (amended): an invocation handler that panics ends its detached
    task without anything being written to the peer (neither YIELD nor
    ERROR) and the session state is untouched; an event handler's task
    never writes anything, whether it panics or not.  In every reachable
    configuration no ERROR frame has been written and no caller is about
    to write one; the reader turns an INVOCATION (EVENT) for an installed
    handler into a spawned task and nothing else; and running a task whose
    invocation handler panics, or any event task, only removes the task. *)
Theorem handler_panic_writes_nothing :
  forall fl (y : Sys) (ths : list Thread),
    reachable fl (y, ths) ->
    Forall (fun m => is_error_frame m = false) (wire y)
    /\ Forall thread_writes_no_error ths
    /\ (forall rid regid details args kwargs (callback : RegisterFn),
          reader_running y = true -> reader_waits fl y = false ->
          registrations (state y) !! regid = Some callback ->
          reader_step fl (Frame (Invocation rid regid details args kwargs)) y
          = set_tasks (tasks y ++ [InvocationTask rid callback
                                    (mkInvocationArg args kwargs (Some details))]) y)
    /\ (forall subid pid details args kwargs (callback : EventFn),
          reader_running y = true -> reader_waits fl y = false ->
          subscriptions (state y) !! subid = Some callback ->
          reader_step fl (Frame (Event subid pid details args kwargs)) y
          = set_tasks (tasks y ++ [EventTask callback (mkEventArg args kwargs (Some details))]) y)
    /\ (forall i ok rid (callback : RegisterFn) inv,
          tasks y !! i = Some (InvocationTask rid callback inv) -> callback inv = Panics ->
          sys_step fl (ATask i ok) (y, ths) = (set_tasks (delete i (tasks y)) y, ths))
    /\ (forall i ok (callback : EventFn) ev,
          tasks y !! i = Some (EventTask callback ev) ->
          sys_step fl (ATask i ok) (y, ths) = (set_tasks (delete i (tasks y)) y, ths)).
Proof.
  intros fl y ths Hr. destruct (error_inv_reachable fl y ths Hr) as [Hw Hf].
  split; [exact Hw|]. split; [exact Hf|]. split; [|split; [|split]].
  - intros rid regid details args kwargs callback Hrun Hwait Hreg.
    unfold reader_step. rewrite Hwait, Hrun. cbn [process_incoming_message].
    rewrite Hreg, update_state_same. destruct fl; reflexivity.
  - intros subid pid details args kwargs callback Hrun Hwait Hsub.
    unfold reader_step. rewrite Hwait, Hrun. cbn [process_incoming_message].
    rewrite Hsub, update_state_same. destruct fl; reflexivity.
  - intros i ok rid callback inv Hi Hp. simpl. rewrite Hi. simpl. rewrite Hp. reflexivity.
  - intros i ok callback ev Hi. simpl. rewrite Hi. reflexivity.
Qed.

Lemma handler_panic_writes_nothing_witness :
  reachable Sync (failing_invoked_cfg.1, failing_invoked_cfg.2)
  /\ tasks failing_invoked_cfg.1 !! 0%nat
     = Some (InvocationTask 7 panicking_handler (mkInvocationArg None None (Some ∅)))
  /\ (let y := failing_invoked_cfg.1 in
      let ths := failing_invoked_cfg.2 in
      Forall (fun m => is_error_frame m = false) (wire y)
      /\ Forall thread_writes_no_error ths
      /\ (forall rid regid details args kwargs (callback : RegisterFn),
            reader_running y = true -> reader_waits Sync y = false ->
            registrations (state y) !! regid = Some callback ->
            reader_step Sync (Frame (Invocation rid regid details args kwargs)) y
            = set_tasks (tasks y ++ [InvocationTask rid callback
                                      (mkInvocationArg args kwargs (Some details))]) y)
      /\ (forall subid pid details args kwargs (callback : EventFn),
            reader_running y = true -> reader_waits Sync y = false ->
            subscriptions (state y) !! subid = Some callback ->
            reader_step Sync (Frame (Event subid pid details args kwargs)) y
            = set_tasks (tasks y ++ [EventTask callback (mkEventArg args kwargs (Some details))]) y)
      /\ (forall i ok rid (callback : RegisterFn) inv,
            tasks y !! i = Some (InvocationTask rid callback inv) -> callback inv = Panics ->
            sys_step Sync (ATask i ok) (y, ths) = (set_tasks (delete i (tasks y)) y, ths))
      /\ (forall i ok (callback : EventFn) ev,
            tasks y !! i = Some (EventTask callback ev) ->
            sys_step Sync (ATask i ok) (y, ths) = (set_tasks (delete i (tasks y)) y, ths))).
Proof.
  assert (Hr : reachable Sync (failing_invoked_cfg.1, failing_invoked_cfg.2)).
  { exists [OpRegister failing_register],
      (failing_register_acts ++ [AReader (Frame (Invocation 7 42 ∅ None None))]).
    vm_compute. reflexivity. }
  split; [exact Hr|]. split; [vm_compute; reflexivity|].
  exact (handler_panic_writes_nothing Sync failing_invoked_cfg.1 failing_invoked_cfg.2 Hr).
Defined.

(** ** Further properties of the code *)

(** *** RawSocket framing *)

Lemma byte_of_N_to_N n : Byte.to_N (RawSocket.byte_of_N n) = (n mod 256)%N.
Proof.
  unfold RawSocket.byte_of_N.
  destruct (Byte.of_N (n mod 256)) as [b|] eqn:E.
  - exact (Byte.to_of_N _ E).
  - apply Byte.of_N_None_iff in E.
    assert (n mod 256 < 256)%N by (apply N.mod_lt; lia). lia.
Qed.

Lemma three_bytes_N (n : N) : (n < 16777216)%N ->
  (n / 65536 mod 256 * 65536 + n / 256 mod 256 * 256 + n mod 256 = n)%N.
Proof.
  intros H.
  assert (E1 : (n / 65536 = (n / 256) / 256)%N) by (rewrite N.Div0.div_div; reflexivity).
  rewrite E1.
  assert (E2 : (n / 256 / 256 < 256)%N)
    by (rewrite <- E1; apply N.Div0.div_lt_upper_bound; lia).
  rewrite (N.mod_small (n / 256 / 256) 256 E2).
  pose proof (N.div_mod n 256 ltac:(lia)).
  pose proof (N.div_mod (n / 256) 256 ltac:(lia)). lia.
Qed.

Lemma receive_send_header (h : RawSocket.MessageHeader) :
  (N.of_nat (RawSocket.header_length h) < 16777216)%N ->
  RawSocket.receive_message_header (RawSocket.send_message_header h) = Some h.
Proof.
  intros Hlt. destruct h as [k len]. cbn [RawSocket.header_length] in Hlt.
  unfold RawSocket.send_message_header, RawSocket.receive_message_header.
  cbn [RawSocket.header_kind RawSocket.header_length].
  rewrite !byte_of_N_to_N, three_bytes_N by lia. rewrite Nat2N.id.
  destruct k; reflexivity.
Qed.

Lemma read_one_frame k (p t : list Byte.byte) (rest : RawSocket.Stream) :
  (N.of_nat (length p) < 16777216)%N ->
  exists st',
    RawSocket.read ((RawSocket.send_message_header (RawSocket.mkMessageHeader k (length p)) ++ p ++ t) :: rest)
    = (Some p, st')
    /\ (t <> [] -> st' = t :: rest)
    /\ (t = [] -> Forall (fun c => c <> []) rest -> st' = rest).
Proof.
  intros Hlt.
  pose proof (receive_send_header (RawSocket.mkMessageHeader k (length p)) Hlt) as Hh.
  revert Hh. unfold RawSocket.send_message_header. cbn [RawSocket.header_kind RawSocket.header_length].
  set (hdr := [RawSocket.kind_byte k; _; _; _]). intros Hh.
  unfold RawSocket.read, RawSocket.stream_read. subst hdr.
  cbn [app firstn skipn length RawSocket.fill Nat.sub repeat].
  rewrite firstn_O. cbn [app length Nat.sub repeat].
  rewrite Hh. cbn [RawSocket.header_length].
  destruct p as [|b p'].
  - destruct t as [|b t'].
    + cbn [app length Nat.leb]. destruct rest as [|c r]; simpl.
      * exists []. split; [reflexivity|]. split; intros; [congruence|reflexivity].
      * exists (if Nat.leb (length c) 0 then r else skipn 0 c :: r).
        split; [reflexivity|]. split; [intros; congruence|].
        intros _ Hf. inversion Hf as [|? ? Hc]; subst. destruct c; [contradiction|reflexivity].
    + cbn [app length Nat.leb]. simpl.
      exists ((b :: t') :: rest). split; [reflexivity|]. split; intros; [reflexivity | discriminate].
  - cbn [app length Nat.leb]. rewrite skipn_O.
    change (b :: p' ++ t) with ((b :: p') ++ t).
    change (S (length p')) with (length (b :: p')).
    set (q := b :: p').
    rewrite firstn_app, Nat.sub_diag, firstn_all. simpl firstn.
    rewrite app_nil_r.
    replace (RawSocket.fill (length q) q) with q
      by (unfold RawSocket.fill; rewrite Nat.sub_diag; simpl; rewrite app_nil_r; reflexivity).
    eexists. split; [reflexivity|].
    rewrite length_app, skipn_app, Nat.sub_diag, skipn_all. simpl skipn.
    split.
    + intros Ht. destruct t as [|x t']; [contradiction|].
      destruct (Nat.leb _ _) eqn:E; [|reflexivity].
      apply Nat.leb_le in E. simpl in E. lia.
    + intros -> _. destruct (Nat.leb _ _) eqn:E; [reflexivity|].
      apply Nat.leb_gt in E. rewrite length_nil in E. lia.
Qed.

Lemma read_many_add a b st :
  RawSocket.read_many (a + b) st =
  let '(r1, st1) := RawSocket.read_many a st in
  let '(r2, st2) := RawSocket.read_many b st1 in (r1 ++ r2, st2).
Proof.
  revert st. induction a as [|a IH]; intros st; simpl.
  - destruct (RawSocket.read_many b st). reflexivity.
  - destruct (RawSocket.read st) as [r st1].
    rewrite IH. destruct (RawSocket.read_many a st1) as [r1 st2].
    destruct (RawSocket.read_many b st2) as [r2 st3]. reflexivity.
Qed.

Lemma write_not_nil p : RawSocket.write p <> [].
Proof. unfold RawSocket.write, RawSocket.send_message_header. simpl. discriminate. Qed.

Lemma concat_writes_nil (g : list (list Byte.byte)) :
  concat (map RawSocket.write g) = [] -> g = [].
Proof.
  destruct g as [|p g]; [reflexivity|]. cbn [map concat]. intros H.
  apply app_eq_nil in H as [H _]. exfalso. exact (write_not_nil p H).
Qed.

Lemma read_many_chunk (g : list (list Byte.byte)) t rest :
  Forall (fun p => N.of_nat (length p) < 16777216)%N g ->
  g <> [] ->
  (t = [] -> Forall (fun c => c <> []) rest) ->
  RawSocket.read_many (length g) ((concat (map RawSocket.write g) ++ t) :: rest)
  = (map Some g, match t with [] => rest | _ => t :: rest end).
Proof.
  revert t rest. induction g as [|p g IH]; intros t rest Hs Hg Ht; [contradiction|].
  inversion Hs as [|? ? Hp Hs']; subst.
  cbn [length map concat RawSocket.read_many].
  unfold RawSocket.write at 1. rewrite <- !app_assoc.
  destruct (read_one_frame RawSocket.Wamp p (concat (map RawSocket.write g) ++ t) rest Hp)
    as (st' & Hr & H1 & H2).
  rewrite Hr.
  destruct g as [|p' g'].
  - simpl in *. destruct t as [|x t'].
    + rewrite (H2 eq_refl (Ht eq_refl)). reflexivity.
    + rewrite (H1 ltac:(discriminate)). reflexivity.
  - rewrite H1.
    2: { intros E. apply app_eq_nil in E as [E _]. apply concat_writes_nil in E. discriminate. }
    rewrite (IH t rest Hs' ltac:(discriminate) Ht). reflexivity.
Qed.

(** X4: when every chunk the TCP stream delivers holds whole frames
    written by [RawSocketPeer::write] (any number of them, each payload
    shorter than 2^24 bytes), successive [read] calls return exactly the
    written payloads, in order, and consume the stream. *)
Theorem rawsocket_frames_read_back (groups : list (list (list Byte.byte))) :
  Forall (fun g => g <> []) groups ->
  Forall (fun p => N.of_nat (length p) < 16777216)%N (concat groups) ->
  RawSocket.read_many (length (concat groups))
    (map (fun g => concat (map RawSocket.write g)) groups)
  = (map Some (concat groups), []).
Proof.
  induction groups as [|g gs IH]; intros Hne Hs; [reflexivity|].
  inversion Hne as [|? ? Hg Hne']; subst.
  cbn [concat map]. apply Forall_app in Hs as [Hs1 Hs2].
  rewrite length_app, read_many_add.
  rewrite <- (app_nil_r (concat (map RawSocket.write g))).
  rewrite (read_many_chunk g [] _ Hs1 Hg).
  2: { intros _. clear -Hne'. induction gs as [|g' gs IH]; [constructor|].
       inversion Hne' as [|? ? Hg' Hne'']; subst. constructor; [|exact (IH Hne'')].
       intros E. apply concat_writes_nil in E. contradiction. }
  rewrite (IH Hne' Hs2), map_app. reflexivity.
Qed.

Lemma rawsocket_frames_read_back_witness :
  let groups := [[[Byte.x01; Byte.x02]; []]; [[Byte.x03]]] in
  Forall (fun g => g <> []) groups
  /\ Forall (fun p => N.of_nat (length p) < 16777216)%N (concat groups)
  /\ RawSocket.read_many (length (concat groups))
       (map (fun g => concat (map RawSocket.write g)) groups)
     = (map Some (concat groups), []).
Proof.
  cbv zeta.
  assert (H1 : Forall (fun g : list (list Byte.byte) => g <> [])
                 [[[Byte.x01; Byte.x02]; []]; [[Byte.x03]]])
    by (repeat constructor; discriminate).
  assert (H2 : Forall (fun p : list Byte.byte => N.of_nat (length p) < 16777216)%N
                 (concat [[[Byte.x01; Byte.x02]; []]; [[Byte.x03]]]))
    by (simpl; repeat constructor).
  split; [exact H1|]. split; [exact H2|].
  exact (rawsocket_frames_read_back _ H1 H2).
Defined.

(** X6: once the TCP stream has ended, [RawSocketPeer::read] never
    reports an error: the zero-filled header buffer reads as a WAMP frame
    of length 0, so every read returns an empty payload. *)
Theorem rawsocket_read_at_eof (n : nat) :
  RawSocket.read_many n [] = (repeat (Some []) n, []).
Proof.
  induction n as [|n IH]; [reflexivity|].
  cbn [RawSocket.read_many]. replace (RawSocket.read []) with (Some (@nil Byte.byte), @nil (list Byte.byte))
    by (vm_compute; reflexivity).
  rewrite IH. reflexivity.
Qed.

(** *** The WebSocket peer's UTF-8 check *)

Ltac gen_dm x k :=
  pose proof (N.div_mod x k ltac:(discriminate));
  pose proof (N.mod_lt x k ltac:(discriminate));
  let q := fresh "q" in let r := fresh "r" in
  set (q := (x / k)%N) in *; set (r := (x mod k)%N) in *; clearbody q r.

Ltac gen_divmod :=
  repeat match goal with
  | |- context [(?x / ?k)%N] => gen_dm x k
  | H : context [(?x / ?k)%N] |- _ => gen_dm x k
  | |- context [(?x mod ?k)%N] => gen_dm x k
  | H : context [(?x mod ?k)%N] |- _ => gen_dm x k
  end.

Ltac split_tests :=
  repeat (cbn [andb orb negb] in *;
    match goal with
    | |- context [N.ltb ?a ?b] => destruct (N.ltb_spec a b); try (exfalso; gen_divmod; lia)
    | |- context [N.leb ?a ?b] => destruct (N.leb_spec a b); try (exfalso; gen_divmod; lia)
    end).

Lemma run_utf8_encode index code rest :
  WebSocket.is_scalar_value code = true ->
  WebSocket.run_utf8_validation index (WebSocket.utf8_encode code ++ rest)
  = WebSocket.run_utf8_validation (index + length (WebSocket.utf8_encode code)) rest.
Proof.
  unfold WebSocket.is_scalar_value. intros Hs.
  apply andb_true_iff in Hs as [Hmax Hsur].
  apply N.leb_le in Hmax. apply negb_true_iff, andb_false_iff in Hsur.
  assert (Hsur' : (code < 55296 \/ 57343 < code)%N).
  { destruct Hsur as [E|E]; apply N.leb_gt in E; lia. }
  clear Hsur.
  unfold WebSocket.utf8_encode.
  destruct (N.ltb_spec code 128);
    [|destruct (N.ltb_spec code 2048); [|destruct (N.ltb_spec code 65536)]];
    cbn [app length WebSocket.run_utf8_validation];
    unfold WebSocket.utf8_char_width, WebSocket.is_continuation,
      WebSocket.second_ok_3, WebSocket.second_ok_4, WebSocket.in_range;
    rewrite ?byte_of_N_to_N;
    split_tests; cbn; f_equal; lia.
Qed.

Lemma run_utf8_encode_all index codes :
  Forall (fun c => WebSocket.is_scalar_value c = true) codes ->
  WebSocket.run_utf8_validation index (concat (map WebSocket.utf8_encode codes)) = None.
Proof.
  intros H. revert index. induction H as [|c codes Hc _ IH]; intros index; [reflexivity|].
  cbn [map concat]. rewrite run_utf8_encode by exact Hc. apply IH.
Qed.

(** X7: in text mode (the JSON serializer) [WebSocketPeer::write] sends
    every payload that is the UTF-8 encoding of a sequence of Unicode
    scalar values unchanged, as one Text message: the UTF-8 check never
    rejects well-formed text. *)
Theorem websocket_text_accepts_utf8 (codes : list N) :
  Forall (fun c => WebSocket.is_scalar_value c = true) codes ->
  WebSocket.write false (concat (map WebSocket.utf8_encode codes))
  = WebSocket.Send (WebSocket.Text (concat (map WebSocket.utf8_encode codes))).
Proof.
  intros H. unfold WebSocket.write, WebSocket.from_utf8.
  rewrite run_utf8_encode_all by exact H. reflexivity.
Qed.

Lemma websocket_text_accepts_utf8_witness :
  let codes := [72; 233; 8364; 128512]%N in
  Forall (fun c => WebSocket.is_scalar_value c = true) codes
  /\ WebSocket.write false (concat (map WebSocket.utf8_encode codes))
     = WebSocket.Send (WebSocket.Text (concat (map WebSocket.utf8_encode codes))).
Proof.
  cbv zeta.
  assert (H : Forall (fun c => WebSocket.is_scalar_value c = true) [72; 233; 8364; 128512]%N)
    by (repeat constructor).
  split; [exact H | exact (websocket_text_accepts_utf8 _ H)].
Defined.

Lemma run_utf8_bad_byte (b : Byte.byte) :
  (Byte.to_N b = 192 \/ Byte.to_N b = 193 \/ 245 <= Byte.to_N b)%N ->
  forall n data index, (length data <= n)%nat -> In b data ->
  WebSocket.run_utf8_validation index data <> None.
Proof.
  intros Hb n. induction n as [|n IH]; intros data index Hl Hin.
  - destruct data; simpl in Hl; [contradiction | lia].
  - destruct data as [|first r0]; [contradiction|]. simpl in Hl.
    cbn [WebSocket.run_utf8_validation];
      unfold WebSocket.utf8_char_width, WebSocket.is_continuation,
        WebSocket.second_ok_3, WebSocket.second_ok_4, WebSocket.in_range;
      repeat (split_tests;
        try match goal with
        | |- context [match ?l with nil => _ | cons _ _ => _ end] =>
            is_var l; destruct l; cbn -[WebSocket.run_utf8_validation]
        end);
      first
        [ discriminate
        | intros _; simpl in Hin;
          repeat (destruct Hin as [<-|Hin]; [lia|]); contradiction
        | apply IH;
          [ simpl in *; lia
          | simpl in Hin |- *;
            repeat (destruct Hin as [<-|Hin]; [first [lia | tauto] |]); tauto ] ].
Qed.

(** X8: in text mode [WebSocketPeer::write] refuses, with a "Not valid
    UTF-8" error and without sending anything, every payload that
    contains a byte which can never occur in UTF-8 (0xC0, 0xC1 or 0xF5
    to 0xFF), wherever that byte is. *)
Theorem websocket_text_rejects_bad_byte (data : list Byte.byte) (b : Byte.byte) :
  In b data ->
  (Byte.to_N b = 192 \/ Byte.to_N b = 193 \/ 245 <= Byte.to_N b)%N ->
  exists e, WebSocket.write false data = WebSocket.NotValidUtf8 e.
Proof.
  intros Hin Hb. unfold WebSocket.write, WebSocket.from_utf8.
  destruct (WebSocket.run_utf8_validation 0 data) as [e|] eqn:E; [now exists e|].
  exfalso. exact (run_utf8_bad_byte b Hb (length data) data 0 (le_n _) Hin E).
Qed.

Lemma websocket_text_rejects_bad_byte_witness :
  In Byte.xff [Byte.x7b; Byte.xff; Byte.x7d]
  /\ (Byte.to_N Byte.xff = 192 \/ Byte.to_N Byte.xff = 193 \/ 245 <= Byte.to_N Byte.xff)%N
  /\ exists e, WebSocket.write false [Byte.x7b; Byte.xff; Byte.x7d] = WebSocket.NotValidUtf8 e.
Proof.
  assert (H1 : In Byte.xff [Byte.x7b; Byte.xff; Byte.x7d]) by (simpl; tauto).
  assert (H2 : (Byte.to_N Byte.xff = 192 \/ Byte.to_N Byte.xff = 193 \/ 245 <= Byte.to_N Byte.xff)%N)
    by (right; right; vm_compute; discriminate).
  split; [exact H1|]. split; [exact H2|].
  exact (websocket_text_rejects_bad_byte _ _ H1 H2).
Defined.

Section JoinProofs.
Context {J D : Type} (p : Proto J D) (write_result : nat -> option string).

Lemma join_write_ext bytes sent (k k' : list (list Byte.byte) -> JoinOutcome D) :
  (forall s, k s = k' s) ->
  join_write write_result bytes sent k = join_write write_result bytes sent k'.
Proof. intros H. unfold join_write. destruct (write_result _); auto. Qed.

Lemma join_receive_ext j reply sent (k k' : J -> list (list Byte.byte) -> JoinOutcome D) :
  (forall j s, k j s = k' j s) ->
  join_receive p write_result j reply sent k = join_receive p write_result j reply sent k'.
Proof.
  intros H. unfold join_receive. destruct (receive p j reply) as [[[o|]|e] j'].
  - apply join_write_ext. auto.
  - destruct (session_details p j') as [[d|]|]; auto.
  - reflexivity.
Qed.

(** A post-processing of outcomes that keeps finished joins commutes
    with one step of the loop. *)
Lemma join_receive_post (f : JoinOutcome D -> JoinOutcome D) j reply sent k :
  (forall d s, f (Joined d s) = Joined d s) ->
  (forall m s, f (JoinFailed m s) = JoinFailed m s) ->
  f (join_receive p write_result j reply sent k)
  = join_receive p write_result j reply sent (fun j s => f (k j s)).
Proof.
  intros Hj Hf. unfold join_receive, join_write.
  destruct (receive p j reply) as [[[o|]|e] j'].
  - destruct (write_result _); auto.
  - destruct (session_details p j') as [[d|]|]; auto.
  - auto.
Qed.

Lemma sync_loop_filter j reads sent :
  sync_join_loop p write_result j reads sent
  = async_join_loop p write_result j
      (List.filter (fun r : ReadResult => match r with inl _ => true | inr _ => false end) reads) sent.
Proof.
  revert j sent. induction reads as [|[reply|e] reads IH]; intros j sent; cbn.
  - reflexivity.
  - apply join_receive_ext. intros; apply IH.
  - apply IH.
Qed.

Lemma async_loop_read_error j oks e rest sent :
  async_join_loop p write_result j (oks ++ inr e :: rest) sent
  = match async_join_loop p write_result j oks sent with
    | JoinPending s => JoinFailed ("failed to read: Error: " ++ e) s
    | o => o
    end.
Proof.
  revert j sent. induction oks as [|[reply|e'] oks IH]; intros j sent; cbn.
  - reflexivity.
  - symmetry. etransitivity.
    + apply (join_receive_post
               (fun o => match o with
                         | Joined d s => Joined d s
                         | JoinFailed m s => JoinFailed m s
                         | JoinPending s => JoinFailed ("failed to read: Error: " ++ e) s
                         end)); reflexivity.
    + apply join_receive_ext. intros; symmetry; apply IH.
  - reflexivity.
Qed.

Lemma async_loop_joined_sent j reads sent d sent' :
  async_join_loop p write_result j reads sent = Joined d sent' ->
  exists extra, sent' = sent ++ extra.
Proof.
  revert j sent. induction reads as [|[reply|e] reads IH]; intros j sent H; cbn in H.
  - discriminate.
  - unfold join_receive, join_write in H.
    destruct (receive p j reply) as [[[o|]|e] j'].
    + destruct (write_result _); [discriminate|].
      destruct (IH _ _ H) as [x ->]. exists ([o] ++ x). now rewrite app_assoc.
    + destruct (session_details p j') as [[d'|]|].
      * injection H as _ <-. exists []. now rewrite app_nil_r.
      * eauto.
      * eauto.
    + discriminate.
  - discriminate.
Qed.

End JoinProofs.

(** X9: the two sync joiners ([src/sync/joiner.rs] and
    [src/sync/peer/joiner.rs]) skip every failed [peer.read()]: each
    ends exactly as the async joiner does on the successful reads alone
    (the peer joiner only reports a failed hello with its own message). *)
Theorem sync_join_skips_failed_reads {J D} (p : Proto J D) write_result j0 reads :
  let oks := List.filter (fun r : ReadResult => match r with inl _ => true | inr _ => false end) reads in
  sync_join p write_result j0 reads = async_join p write_result j0 oks
  /\ sync_peer_join p write_result j0 reads
     = match send_hello p j0 with
       | inl _ => async_join p write_result j0 oks
       | inr _ => JoinFailed "failed to send hello" []
       end.
Proof.
  cbv zeta. unfold sync_join, sync_peer_join, async_join.
  destruct (send_hello p j0) as [[h j]|e]; [|split; reflexivity].
  assert (E : join_write write_result h [] (sync_join_loop p write_result j reads)
              = join_write write_result h []
                  (async_join_loop p write_result j
                     (List.filter (fun r : ReadResult => match r with inl _ => true | inr _ => false end) reads)))
    by (apply join_write_ext; intros; apply sync_loop_filter).
  split; exact E.
Qed.

(** X10: in the async joiner the first failed [peer.read()] ends the join
    with "failed to read: Error: " and the read error, unless the replies
    before it already ended it; nothing after that read is looked at. *)
Theorem async_join_read_error {J D} (p : Proto J D) write_result j0 oks e rest :
  async_join p write_result j0 (oks ++ inr e :: rest)
  = match async_join p write_result j0 oks with
    | JoinPending sent => JoinFailed ("failed to read: Error: " ++ e) sent
    | o => o
    end.
Proof.
  unfold async_join. destruct (send_hello p j0) as [[h j]|e']; [|reflexivity].
  unfold join_write. destruct (write_result (length [])); [reflexivity|].
  apply async_loop_read_error.
Qed.

(** X11: the async joiner only reports the session once the hello has
    been written: the frames written then start with the hello that
    [send_hello] produced. *)
Theorem async_join_joined_after_hello {J D} (p : Proto J D) write_result j0 reads d sent :
  async_join p write_result j0 reads = Joined d sent ->
  exists hello j rest, send_hello p j0 = inl (hello, j) /\ sent = hello :: rest.
Proof.
  unfold async_join. destruct (send_hello p j0) as [[h j]|e]; [|discriminate].
  unfold join_write. destruct (write_result (length [])); [discriminate|].
  intros H. destruct (async_loop_joined_sent p write_result _ _ _ _ _ H) as [x ->].
  exists h, j, x. auto.
Qed.

Lemma async_join_joined_after_hello_witness :
  async_join demo_proto (fun _ => None) 0%nat [inl [Byte.x05]; inl []]
    = Joined "session"%string [[Byte.x01]; [Byte.x05]]
  /\ exists hello j rest, send_hello demo_proto 0%nat = inl (hello, j)
                          /\ [[Byte.x01]; [Byte.x05]] = hello :: rest.
Proof.
  assert (H : async_join demo_proto (fun _ => None) 0%nat [inl [Byte.x05]; inl []]
              = Joined "session"%string [[Byte.x01]; [Byte.x05]]) by reflexivity.
  split; [exact H | exact (async_join_joined_after_hello _ _ _ _ _ _ H)].
Defined.

(** *** Fresh request ids *)

Lemma dispatch_pending_shrink m (s s' : State) effs k :
  process_incoming_message m s = (s', effs) ->
  (call_requests s !! k = None -> call_requests s' !! k = None)
  /\ (register_requests s !! k = None -> register_requests s' !! k = None)
  /\ (unregister_requests s !! k = None -> unregister_requests s' !! k = None)
  /\ (publish_requests s !! k = None -> publish_requests s' !! k = None)
  /\ (subscribe_requests s !! k = None -> subscribe_requests s' !! k = None)
  /\ (unsubscribe_requests s !! k = None -> unsubscribe_requests s' !! k = None).
Proof.
  intros H. destruct m; cbn [process_incoming_message] in H;
    repeat case_match; simplify_eq; simpl; repeat split; auto;
    intros; rewrite lookup_delete_None; tauto.
Qed.

Ltac fresh_goal Hf k :=
  let H := fresh in
  destruct (Hf k ltac:(unfold next_id in *; simpl in *; lia)) as (H & ? & ? & ? & ? & ?);
  unfold insert_call, insert_publish, insert_register, insert_subscribe,
    remove_call, remove_publish, remove_register, remove_subscribe, next_id in *;
  simpl in *; repeat split;
  rewrite ?lookup_insert_ne by lia; rewrite ?lookup_delete_None; tauto.

Lemma thread_step_ids_fresh fl ok t (y : Sys) y' t' :
  thread_step fl ok t y = Some (y', t') -> ids_fresh y -> ids_fresh y'.
Proof.
  intros H Hf k Hk. destruct t; cbn [thread_step] in H; try discriminate.
  1: { injection H as H. unfold start_op in H.
       destruct o; simpl in H; repeat case_match; simplify_eq; fresh_goal Hf k. }
  1: { injection H as H. unfold write_step in H.
       destruct ok, k0; simplify_eq; fresh_goal Hf k. }
  all: unfold await_step in H; repeat case_match; simplify_eq;
       try match goal with E : recv _ _ = Received _ _ |- _ =>
             apply recv_frame in E as (? & _ & ->) end;
       fresh_goal Hf k.
Qed.

Lemma reader_step_ids_fresh fl inc (y : Sys) :
  ids_fresh y -> ids_fresh (reader_step fl inc y).
Proof.
  intros Hf.
  destruct (reader_step_cases fl inc y)
    as [->|[[_ ->]|(m & s' & effs & _ & _ & _ & Hp & ->)]]; [exact Hf | exact Hf |].
  intros k.
  destruct (dispatch_effects_frame fl m effs (update_state (fun _ => s') y))
    as (-> & _ & _ & _ & -> & _).
  simpl. intros Hk. destruct (Hf k Hk) as (H1 & H2 & H3 & H4 & H5 & H6).
  destruct (dispatch_pending_shrink m (state y) s' effs k Hp) as (G1 & G2 & G3 & G4 & G5 & G6).
  auto 7.
Qed.

Lemma sys_step_ids_fresh fl a (c : Sys * list Thread) :
  ids_fresh c.1 -> ids_fresh (sys_step fl a c).1.
Proof.
  destruct c as [y ths]. intros Hf. destruct a as [i ok|inc|i ok|]; simpl.
  - destruct (ths !! i) as [t|]; [|exact Hf].
    destruct (thread_step fl ok t y) as [[y' t']|] eqn:Hs; [|exact Hf].
    exact (thread_step_ids_fresh _ _ _ _ _ _ Hs Hf).
  - apply reader_step_ids_fresh, Hf.
  - destruct (tasks y !! i) as [t|]; [|exact Hf]. simpl.
    destruct (run_task_frame t ok (set_tasks (delete i (tasks y)) y)) as [Hs _].
    intros k. rewrite Hs.
    assert (E : idgen (run_task t ok (set_tasks (delete i (tasks y)) y)) = idgen y)
      by (destruct t as [rid cb inv|cb ev]; simpl; [destruct (cb inv), ok|]; reflexivity).
    rewrite E. apply Hf.
  - intros k. destruct (reader_send_frame fl y) as (-> & _ & _ & _ & -> & _). apply Hf.
Qed.

(** X12: in every reachable session state no pending map (call,
    register, unregister, publish, subscribe, unsubscribe) holds an entry
    under a request id above the id generator's last id; so the id the
    next operation takes is never already pending. *)
Theorem pending_ids_below_idgen (fl : Flavour) (y : Sys) (ths : list Thread) :
  reachable fl (y, ths) ->
  forall k, idgen y < k ->
    call_requests (state y) !! k = None /\ register_requests (state y) !! k = None
    /\ unregister_requests (state y) !! k = None /\ publish_requests (state y) !! k = None
    /\ subscribe_requests (state y) !! k = None /\ unsubscribe_requests (state y) !! k = None.
Proof.
  intros Hr. change (ids_fresh (y, ths).1).
  apply (reachable_invariant (fun c => ids_fresh c.1) fl); [| |exact Hr].
  - intros a c. apply sys_step_ids_fresh.
  - intros ops k _. simpl. rewrite !lookup_empty. tauto.
Qed.

Lemma pending_ids_below_idgen_witness :
  reachable Sync failing_registered_cfg /\ idgen failing_registered_cfg.1 < 2
  /\ (call_requests (state failing_registered_cfg.1) !! 2 = None
      /\ register_requests (state failing_registered_cfg.1) !! 2 = None
      /\ unregister_requests (state failing_registered_cfg.1) !! 2 = None
      /\ publish_requests (state failing_registered_cfg.1) !! 2 = None
      /\ subscribe_requests (state failing_registered_cfg.1) !! 2 = None
      /\ unsubscribe_requests (state failing_registered_cfg.1) !! 2 = None).
Proof.
  assert (Hr : reachable Sync failing_registered_cfg)
    by (exists [OpRegister failing_register], failing_register_acts; reflexivity).
  assert (Hlt : idgen failing_registered_cfg.1 < 2) by (vm_compute; reflexivity).
  split; [exact Hr|]. split; [exact Hlt|].
  exact (pending_ids_below_idgen Sync failing_registered_cfg.1 failing_registered_cfg.2 Hr 2 Hlt).
Defined.

(** *** GOODBYE *)

Lemma dispatch_goodbye_sent m (s s' : State) effs :
  process_incoming_message m s = (s', effs) -> goodbye_sent s' = goodbye_sent s.
Proof.
  intros H. destruct m; cbn [process_incoming_message] in H;
    repeat case_match; simplify_eq; first [reflexivity | congruence].
Qed.

Lemma thread_step_goodbye fl ok t (y : Sys) y' t' :
  thread_step fl ok t y = Some (y', t') ->
  goodbye_sent (state y') = false ->
  goodbye_sent (state y) = false /\ thread_writes_no_goodbye t'.
Proof.
  intros H Hg. destruct t; cbn [thread_step] in H; try discriminate.
  1: { injection H as H. unfold start_op in H.
       destruct o; simpl in H; repeat case_match; simplify_eq; simpl in *; auto. }
  1: { injection H as H. unfold write_step in H.
       destruct ok, k; simplify_eq; simpl in *; auto. }
  all: unfold await_step in H; repeat case_match; simplify_eq;
       try match goal with E : recv _ _ = Received _ _ |- _ =>
             apply recv_frame in E as (? & _ & ->) end;
       simpl in *; auto.
Qed.

Lemma goodbye_inv_step fl a (c : Sys * list Thread) :
  goodbye_inv c.1 c.2 -> goodbye_inv (sys_step fl a c).1 (sys_step fl a c).2.
Proof.
  destruct c as [y ths]. intros Hinv. destruct a as [i ok|inc|i ok|]; simpl.
  - destruct (ths !! i) as [t|] eqn:Hi; [|exact Hinv].
    destruct (thread_step fl ok t y) as [[y' t']|] eqn:Hs; [|exact Hinv].
    simpl. intros Hg.
    destruct (thread_step_goodbye _ _ _ _ _ _ Hs Hg) as [Hg0 Ht'].
    destruct (Hinv Hg0) as [Hw Hths].
    apply thread_step_frame in Hs as (_ & _ & Hwire & _).
    split.
    + destruct Hwire as [-> | (m & k & -> & ->)]; [exact Hw|].
      apply Forall_app. split; [exact Hw|]. constructor; [|constructor].
      exact (Forall_lookup_1 _ _ _ _ Hths Hi).
    + apply Forall_insert; assumption.
  - destruct (reader_step_cases fl inc y)
      as [->|[[_ ->]|(m & s' & effs & _ & _ & _ & Hp & ->)]]; [exact Hinv | exact Hinv |].
    unfold goodbye_inv in *.
    destruct (dispatch_effects_frame fl m effs (update_state (fun _ => s') y)) as (-> & -> & _).
    simpl. rewrite (dispatch_goodbye_sent _ _ _ _ Hp). exact Hinv.
  - destruct (tasks y !! i) as [t|]; [|exact Hinv]. simpl.
    destruct (run_task_frame t ok (set_tasks (delete i (tasks y)) y)) as [Hs Hw].
    unfold goodbye_inv in *. rewrite Hs. simpl. intros Hg. destruct (Hinv Hg) as [Hw0 Hths]. split; [|exact Hths].
    destruct Hw as [-> | (rid & a & k & ->)]; simpl; [exact Hw0|].
    apply Forall_app. split; [exact Hw0|]. repeat constructor.
  - unfold goodbye_inv in *. destruct (reader_send_frame fl y) as (-> & -> & _). exact Hinv.
Qed.

(** X13: once [leave] has written its GOODBYE frame, the GOODBYE the
    router answers with is dispatched to both the goodbye signal and the
    exit signal, so the waiting [leave] is woken up. *)
Theorem goodbye_written_then_signalled (fl : Flavour) (y : Sys) (ths : list Thread)
    d r d' r' :
  reachable fl (y, ths) -> In (Goodbye d r) (wire y) ->
  process_incoming_message (Goodbye d' r') (state y) = (state y, [SignalGoodbye; SignalExit]).
Proof.
  intros Hr Hin.
  assert (Hinv : goodbye_inv (y, ths).1 (y, ths).2).
  { apply (reachable_invariant (fun c => goodbye_inv c.1 c.2) fl); [| |exact Hr].
    - apply goodbye_inv_step.
    - intros ops _. split; [constructor|].
      apply List.Forall_forall. intros t Ht. apply in_map_iff in Ht as (o & <- & _). exact I. }
  cbn [process_incoming_message].
  destruct (goodbye_sent (state y)) eqn:Hg; [reflexivity|].
  destruct (Hinv Hg) as [Hw _]. rewrite List.Forall_forall in Hw.
  specialize (Hw _ Hin). discriminate.
Qed.

Lemma goodbye_written_then_signalled_witness :
  reachable Sync leave_sent /\ In (Goodbye ∅ "wamp.close.close_realm") (wire leave_sent.1)
  /\ process_incoming_message (Goodbye ∅ "wamp.error.goodbye_and_out") (state leave_sent.1)
     = (state leave_sent.1, [SignalGoodbye; SignalExit]).
Proof.
  assert (Hr : reachable Sync leave_sent)
    by (exists [OpLeave], [AThread 0 true; AThread 0 true]; reflexivity).
  assert (Hin : In (Goodbye ∅ "wamp.close.close_realm") (wire leave_sent.1))
    by (left; reflexivity).
  split; [exact Hr|]. split; [exact Hin|].
  exact (goodbye_written_then_signalled Sync leave_sent.1 leave_sent.2 _ _ _ _ Hr Hin).
Defined.

(** *** After the reader loop has ended *)

Lemma thread_step_reader_chan fl ok t (y : Sys) y' t' c :
  thread_step fl ok t y = Some (y', t') ->
  reader_running y' = reader_running y /\ (chan_buf y c = [] -> chan_buf y' c = []).
Proof.
  intros H. destruct t; cbn [thread_step] in H; try discriminate.
  1: { injection H as H. unfold start_op, new_channel, chan_buf in *.
       destruct o; simpl in H; repeat case_match; simplify_eq; simpl; split; auto;
       intros E; destruct (decide (next_chan y = c)) as [->|Hne];
       rewrite ?lookup_insert_eq, ?lookup_insert_ne by exact Hne; auto. }
  1: { injection H as H. unfold write_step in H.
       destruct ok, k; simplify_eq; simpl; auto. }
  all: unfold await_step in H; repeat case_match; simplify_eq;
       try match goal with E : recv ?c' _ = Received _ _ |- _ =>
             apply recv_frame in E as (rest & Hbuf & ->);
             unfold chan_buf in *; simpl;
             split; [reflexivity|]; intros E0;
             destruct (decide (c' = c)) as [->|Hne];
             [rewrite E0 in Hbuf; discriminate
             | rewrite lookup_insert_ne by exact Hne; exact E0]
           end;
       simpl; auto.
Qed.

Lemma run_task_reader_chans t ok (y : Sys) :
  reader_running (run_task t ok y) = reader_running y /\ chans (run_task t ok y) = chans y.
Proof.
  destruct t as [rid cb inv|cb ev]; simpl; [destruct (cb inv), ok|]; split; reflexivity.
Qed.

Lemma reader_stopped_call_step fl a (cfg : Sys * list Thread) i rid c :
  reader_running cfg.1 = false -> chan_buf cfg.1 c = [] ->
  cfg.2 !! i = Some (AwaitCall rid c) \/ cfg.2 !! i = Some (Done (Err "call failed")) ->
  reader_running (sys_step fl a cfg).1 = false /\ chan_buf (sys_step fl a cfg).1 c = []
  /\ ((sys_step fl a cfg).2 !! i = Some (AwaitCall rid c)
      \/ (sys_step fl a cfg).2 !! i = Some (Done (Err "call failed"))).
Proof.
  destruct cfg as [y ths]. simpl. intros Hrun Hbuf Hi.
  destruct a as [j ok|inc|j ok|]; simpl.
  - destruct (ths !! j) as [t|] eqn:Hj; [|auto].
    destruct (thread_step fl ok t y) as [[y' t']|] eqn:Hs; [|auto].
    destruct (thread_step_reader_chan _ _ _ _ _ _ c Hs) as [Hr Hc]. simpl.
    split; [congruence|]. split; [auto|].
    destruct (decide (j = i)) as [->|Hne].
    + rewrite list_lookup_insert_eq by (apply lookup_lt_is_Some; eauto). right.
      destruct Hi as [Hi|Hi]; rewrite Hi in Hj; injection Hj as <-; [|discriminate].
      cbn [thread_step await_step] in Hs. unfold recv in Hs. rewrite Hbuf in Hs.
      destruct (sender_alive (state y) c); [discriminate|]. congruence.
    + rewrite list_lookup_insert_ne by exact Hne. exact Hi.
  - unfold reader_step. destruct (reader_waits fl y); [auto|]. rewrite Hrun. auto.
  - destruct (tasks y !! j) as [t|]; [|auto]. simpl.
    destruct (run_task_reader_chans t ok (set_tasks (delete j (tasks y)) y)) as [Hr Hc].
    unfold chan_buf in *. rewrite Hr, Hc. simpl. auto.
  - unfold reader_send. rewrite Hrun. auto.
Qed.

(** X14: once the reader loop has ended (a failed [peer.read()] or an
    undecodable frame), a caller waiting for the result of its CALL with
    nothing queued on its channel never gets a result: whatever happens
    next it stays blocked in [recv], or returns "call failed" once its
    sender is dropped. *)
Theorem call_after_reader_stopped (fl : Flavour) (y : Sys) (ths : list Thread)
    (i : nat) (rid : Z) (c : Sender) :
  reader_running y = false -> chan_buf y c = [] -> ths !! i = Some (AwaitCall rid c) ->
  forall acts,
    (run fl acts (y, ths)).2 !! i = Some (AwaitCall rid c)
    \/ (run fl acts (y, ths)).2 !! i = Some (Done (Err "call failed")).
Proof.
  intros Hrun Hbuf Hi acts.
  enough (H : reader_running (run fl acts (y, ths)).1 = false
              /\ chan_buf (run fl acts (y, ths)).1 c = []
              /\ ((run fl acts (y, ths)).2 !! i = Some (AwaitCall rid c)
                  \/ (run fl acts (y, ths)).2 !! i = Some (Done (Err "call failed"))))
    by apply H.
  apply (run_invariant (fun cfg => reader_running cfg.1 = false /\ chan_buf cfg.1 c = []
           /\ (cfg.2 !! i = Some (AwaitCall rid c)
               \/ cfg.2 !! i = Some (Done (Err "call failed"))))).
  - intros a cfg (H1 & H2 & H3). apply reader_stopped_call_step; assumption.
  - simpl. auto.
Qed.

Lemma call_after_reader_stopped_witness :
  reader_running call_sent_reader_failed.1 = false
  /\ chan_buf call_sent_reader_failed.1 0 = []
  /\ call_sent_reader_failed.2 !! 0%nat = Some (AwaitCall 1 0)
  /\ forall acts,
       (run Sync acts call_sent_reader_failed).2 !! 0%nat = Some (AwaitCall 1 0)
       \/ (run Sync acts call_sent_reader_failed).2 !! 0%nat = Some (Done (Err "call failed")).
Proof.
  assert (H1 : reader_running call_sent_reader_failed.1 = false) by reflexivity.
  assert (H2 : chan_buf call_sent_reader_failed.1 0 = []) by reflexivity.
  assert (H3 : call_sent_reader_failed.2 !! 0%nat = Some (AwaitCall 1 0)) by reflexivity.
  split; [exact H1|]. split; [exact H2|]. split; [exact H3|].
  exact (call_after_reader_stopped Sync call_sent_reader_failed.1 call_sent_reader_failed.2
           0 1 0 H1 H2 H3).
Defined.

(** *** Request builders and the frames they produce *)

Lemma fold_call_with_arg args (r : CallRequest) :
  fold_left (fun r a => call_with_arg a r) args r
  = mkCallRequest (call_procedure r) (call_options r) (call_args r ++ args) (call_kwargs r).
Proof.
  revert r. induction args as [|a args IH]; intros r; simpl.
  - destruct r; simpl. rewrite app_nil_r. reflexivity.
  - rewrite IH. simpl. rewrite <- app_assoc. reflexivity.
Qed.

Lemma fold_call_with_kwarg kvs (r : CallRequest) :
  fold_left (fun r kv => call_with_kwarg kv.1 kv.2 r) kvs r
  = mkCallRequest (call_procedure r) (call_options r) (call_args r)
      (fold_left (fun m kv => <[kv.1 := kv.2]> m) kvs (call_kwargs r)).
Proof.
  revert r. induction kvs as [|kv kvs IH]; intros r; simpl.
  - destruct r; reflexivity.
  - rewrite IH. reflexivity.
Qed.

Lemma list_to_map_rev (kvs : list (string * Value)) :
  (list_to_map (rev kvs) : Dict) = fold_left (fun m kv => <[kv.1 := kv.2]> m) kvs ∅.
Proof. unfold list_to_map. apply fold_left_rev_right. Qed.

(** X15: a call built with [CallRequest::new(procedure)], then [with_arg]
    for each argument and [with_kwarg] for each key/value pair, goes out
    as a CALL frame with the next request id, empty options, the
    arguments in the order they were added, and the keyword arguments
    where a later pair for the same key overrides an earlier one. *)
Theorem call_builder_frame (procedure : string) (args : list Value)
    (kvs : list (string * Value)) (y : Sys) :
  snd (start_op (OpCall (fold_left (fun r kv => call_with_kwarg kv.1 kv.2 r) kvs
                           (fold_left (fun r a => call_with_arg a r) args
                              (call_request_new procedure)))) true y)
  = Writing (Call (idgen y + 1) ∅ procedure (Some args) (Some (list_to_map (rev kvs))))
      (AfterCall (idgen y + 1) (next_chan y)).
Proof.
  rewrite fold_call_with_arg, fold_call_with_kwarg, list_to_map_rev. reflexivity.
Qed.

(** X16: a publication waits for the router's acknowledgement exactly
    when [with_option("acknowledge", v)] was given the value
    [Value::Bool(true)]; any other value (an integer, a string, [false])
    makes it a fire-and-forget publication. *)
Theorem publish_acknowledge_option (v : Value) (r : PublishRequest) (y : Sys) :
  (exists m rid c,
     snd (start_op (OpPublish (publish_with_option "acknowledge" v r)) true y)
     = Writing m (AfterPublishAck rid c))
  <-> v = VBool true.
Proof.
  unfold start_op, acknowledge, publish_with_option. cbn [pub_options].
  rewrite lookup_insert_eq. split.
  - destruct v as [|[|]| | | | |]; simpl; intros (m & rid & c & H); try discriminate; reflexivity.
  - intros ->. simpl. do 3 eexists. reflexivity.
Qed.

(** *** Choosing the transport *)

Lemma prefix_nil_l s : String.prefix EmptyString s = true.
Proof. apply String.prefix_correct. destruct s; reflexivity. Qed.

Lemma prefix_cons_eq a s1 s2 :
  String.prefix (String a s1) (String a s2) = String.prefix s1 s2.
Proof.
  destruct (String.prefix s1 s2) eqn:E.
  - apply String.prefix_correct in E. apply String.prefix_correct. simpl. now rewrite E.
  - destruct (String.prefix (String a s1) (String a s2)) eqn:E'; [|reflexivity].
    apply String.prefix_correct in E'. simpl in E'. injection E' as E'.
    apply String.prefix_correct in E'. congruence.
Qed.

Lemma prefix_cons_ne a b s1 s2 :
  a <> b -> String.prefix (String a s1) (String b s2) = false.
Proof.
  intros Hne. destruct (String.prefix (String a s1) (String b s2)) eqn:E; [|reflexivity].
  apply String.prefix_correct in E. simpl in E. injection E as E _. congruence.
Qed.

Lemma prefix_nil_r a s : String.prefix (String a s) EmptyString = false.
Proof.
  destruct (String.prefix (String a s) EmptyString) eqn:E; [|reflexivity].
  apply String.prefix_correct in E. discriminate.
Qed.

Lemma append_cons a s1 s2 : String.append (String a s1) s2 = String a (String.append s1 s2).
Proof. reflexivity. Qed.

Ltac prefix_simpl :=
  repeat first
    [ rewrite prefix_nil_l
    | rewrite prefix_cons_eq
    | rewrite prefix_cons_ne by (intro; discriminate) ].

(** X1: [Client::connect] hands a "ws://" or "wss://" URI to the
    WebSocket joiner and an "rs://", "rss://", "tcp://" or "tcps://" URI
    to the RawSocket joiner, whatever follows the scheme. *)
Theorem connect_schemes (rest : string) :
  connect ("ws://" ++ rest) = inl WebSocketJoiner
  /\ connect ("wss://" ++ rest) = inl WebSocketJoiner
  /\ connect ("rs://" ++ rest) = inl RawSocketJoiner
  /\ connect ("rss://" ++ rest) = inl RawSocketJoiner
  /\ connect ("tcp://" ++ rest) = inl RawSocketJoiner
  /\ connect ("tcps://" ++ rest) = inl RawSocketJoiner.
Proof.
  unfold connect. rewrite !append_cons. prefix_simpl. repeat split; reflexivity.
Qed.

(** X2: [Client::connect] refuses with "Invalid URI scheme" every URI
    whose first character is not a lower-case 'w', 'r' or 't' (the empty
    URI included): the scheme match is case sensitive and there is no
    default transport. *)
Theorem connect_rejects (uri : string) :
  substring 0 1 uri <> "w" -> substring 0 1 uri <> "r" -> substring 0 1 uri <> "t" ->
  connect uri = inr "Invalid URI scheme".
Proof.
  intros Hw Hr Ht. unfold connect. destruct uri as [|ch rest].
  - rewrite !prefix_nil_r. reflexivity.
  - simpl in Hw, Hr, Ht.
    replace (substring 0 0 rest) with EmptyString in * by (destruct rest; reflexivity).
    rewrite !prefix_cons_ne by congruence. reflexivity.
Qed.

Lemma connect_rejects_witness :
  substring 0 1 "WS://localhost:8080/ws" <> "w" /\ substring 0 1 "WS://localhost:8080/ws" <> "r"
  /\ substring 0 1 "WS://localhost:8080/ws" <> "t"
  /\ connect "WS://localhost:8080/ws" = inr "Invalid URI scheme".
Proof.
  assert (Hw : substring 0 1 "WS://localhost:8080/ws" <> "w") by discriminate.
  assert (Hr : substring 0 1 "WS://localhost:8080/ws" <> "r") by discriminate.
  assert (Ht : substring 0 1 "WS://localhost:8080/ws" <> "t") by discriminate.
  split; [exact Hw|]. split; [exact Hr|]. split; [exact Ht|].
  exact (connect_rejects _ Hw Hr Ht).
Defined.

